(** * Cuban Crow: the upload / download prototype of the GHGA encryption
    experiments, embedded from
    [src/prototype_decryption_encryption/cuban_crow.py].

    The script decrypts a Crypt4GH container while it computes the checksum
    of the whole plaintext and the checksums of the ciphertext parts, and
    then hands the same ciphertext to a second recipient behind a fresh
    envelope.  The embedding keeps the script's structure: the file system,
    the two output streams and the module-level [SESSION_KEY] form an
    explicit world that every function threads; Python exceptions are a
    result constructor; [hashlib] and [crypt4gh] are parameters of the
    sections that use them. *)

From Stdlib Require Import String Ascii Strings.Byte Bool.
From Stdlib Require Import List ZArith Lia.
Import ListNotations.
Set Default Proof Using "Type".
Local Open Scope Z_scope.
Local Open Scope list_scope.

(** ** Python values *)

Definition bytes := list byte.

Module Py.

(** [len(b)] *)
Definition len {A} (b : list A) : Z := Z.of_nat (length b).

(** The first [n] elements; nothing for [n <= 0]. *)
Fixpoint take {A} (n : Z) (l : list A) : list A :=
  match l with
  | [] => []
  | x :: l' => if 0 <? n then x :: take (n - 1) l' else []
  end.

(** All but the first [n] elements; everything for [n <= 0]. *)
Fixpoint drop {A} (n : Z) (l : list A) : list A :=
  match l with
  | [] => []
  | x :: l' => if 0 <? n then drop (n - 1) l' else l
  end.

(** [b[:n]]: a negative bound counts from the end. *)
Definition slice_to {A} (n : Z) (b : list A) : list A :=
  if n <? 0 then take (len b + n) b else take n b.

(** [b[n:]] *)
Definition slice_from {A} (n : Z) (b : list A) : list A :=
  if n <? 0 then drop (len b + n) b else drop n b.

(** [stream.read(n)] on the unread rest of a binary stream: the data read
    and the rest left.  A negative [n] reads to the end of the stream. *)
Definition read (n : Z) (stream : bytes) : bytes * bytes :=
  if n <? 0 then (stream, []) else (take n stream, drop n stream).

(** The newline of an f-string. *)
Definition nl : string := String (ascii_of_nat 10) EmptyString.

End Py.
Import Py.

(** ** Exceptions and results *)

(** The failures of the Crypt4GH layer (the error kinds the design names). *)
Inductive crypt4gh_error : Type :=
| MalformedContainer
| UnsupportedVersion
| NoUsableKey
| AuthenticationFailure
| NoValidSessionKey.

Inductive exn : Type :=
| FileNotFoundError
| OSError                               (* seek to a negative offset *)
| IndexError                            (* [session_keys[0]] of an empty list *)
| TypeError                             (* bytes + str *)
| ValueError                            (* a private key file that does not parse *)
| NotImplementedError                   (* a public key file of no supported format *)
| UnboundLocalError (name : string)     (* read of a local that was never bound *)
| Crypt4GHError (e : crypt4gh_error).

(** [Timeout] is the loop model running out of fuel; [compute_checksums]
    never produces it (lemma [while_part_fuel]). *)
Inductive result (A : Type) : Type :=
| Ok (a : A)
| Raise (e : exn)
| Timeout.
Arguments Ok {A} a.
Arguments Raise {A} e.
Arguments Timeout {A}.

(** ** The world of the script *)

(** [INPUT_DIR / name] and [OUTPUT_DIR / name]. *)
Inductive path : Type :=
| INPUT_DIR (name : string)
| OUTPUT_DIR (name : string).

Definition path_eqb (p q : path) : bool :=
  match p, q with
  | INPUT_DIR a, INPUT_DIR b => String.eqb a b
  | OUTPUT_DIR a, OUTPUT_DIR b => String.eqb a b
  | _, _ => false
  end.

Record world : Type := mkWorld {
  files : path -> option bytes;
  output_dir_exists : bool;
  stdout : list string;
  stderr : list string;
  SESSION_KEY : option bytes     (* [None]: still the initial [""], a str *)
}.

Definition write_file (p : path) (b : bytes) (w : world) : world :=
  mkWorld (fun q => if path_eqb q p then Some b else files w q)
          (output_dir_exists w) (stdout w) (stderr w) (SESSION_KEY w).

Definition mkdir_output (w : world) : world :=
  mkWorld (files w) true (stdout w) (stderr w) (SESSION_KEY w).

(** [if not OUTPUT_DIR.exists(): OUTPUT_DIR.mkdir()] *)
Definition ensure_output_dir (w : world) : world :=
  if output_dir_exists w then w else mkdir_output w.

Definition print (s : string) (w : world) : world :=
  mkWorld (files w) (output_dir_exists w) (stdout w ++ [s]) (stderr w) (SESSION_KEY w).

Definition print_stderr (s : string) (w : world) : world :=
  mkWorld (files w) (output_dir_exists w) (stdout w) (stderr w ++ [s]) (SESSION_KEY w).

Definition set_SESSION_KEY (k : bytes) (w : world) : world :=
  mkWorld (files w) (output_dir_exists w) (stdout w) (stderr w) (Some k).

(** The key file at [p] holds the key [k], as [parse] reads it. *)
Definition holds_key (parse : bytes -> option bytes) (w : world) (p : path) (k : bytes)
  : Prop :=
  exists content, files w p = Some content /\ parse content = Some k.

(** A computation of the script: it may change the world, also when it
    raises. *)
Definition M (A : Type) : Type := world -> result A * world.

Definition ret {A} (a : A) : M A := fun w => (Ok a, w).
Definition raise {A} (e : exn) : M A := fun w => (Raise e, w).
Definition bind {A B} (m : M A) (k : A -> M B) : M B :=
  fun w =>
    match m w with
    | (Ok a, w') => k a w'
    | (Raise e, w') => (Raise e, w')
    | (Timeout, w') => (Timeout, w')
    end.
Definition effect (f : world -> world) : M unit := fun w => (Ok tt, f w).

Declare Scope script_scope.
Delimit Scope script_scope with script.
Notation "x <- m ;; k" := (bind m (fun x => k))
  (at level 61, m at next level, right associativity) : script_scope.
Notation "' pat <- m ;; k" := (bind m (fun x => match x with pat => k end))
  (at level 61, pat pattern, m at next level, right associativity) : script_scope.
Notation "m ;;; k" := (bind m (fun _ => k))
  (at level 61, right associativity) : script_scope.
Local Open Scope script_scope.

(** [path.open("rb")] followed by [read()]: the whole content. *)
Definition open_rb (p : path) : M bytes :=
  fun w => match files w p with
           | Some b => (Ok b, w)
           | None => (Raise FileNotFoundError, w)
           end.

(** [path.open("wb")]: the file is created or truncated. *)
Definition open_wb (p : path) : M unit :=
  fun w => match p with
           | OUTPUT_DIR _ =>
               if output_dir_exists w then (Ok tt, write_file p [] w)
               else (Raise FileNotFoundError, w)
           | INPUT_DIR _ => (Ok tt, write_file p [] w)
           end.

(** ** Constants *)

Definition PART_SIZE : Z := 16 * 1024 ^ 2.

(** ** The script *)

Section Script.

(** [hashlib.sha256(data).hexdigest()].  A hash object is modelled by the
    bytes fed to it so far, after hashlib's contract: [m.update(a);
    m.update(b)] is [m.update(a + b)]. *)
Variable sha256_hexdigest : bytes -> string.

Definition hash_object : Type := bytes.
Definition sha256_new : hash_object := [].
Definition update (h : hash_object) (data : bytes) : hash_object := h ++ data.
Definition hexdigest (h : hash_object) : string := sha256_hexdigest h.

(** [crypt4gh.lib.CIPHER_SEGMENT_SIZE] and [crypt4gh.lib.decrypt_block]:
    the size of one ciphertext segment, and the decryption of one segment
    under a list of session keys ([inl]: it raises). *)
Variable CIPHER_SEGMENT_SIZE : Z.
Variable decrypt_block : bytes -> list bytes -> crypt4gh_error + bytes.

(** The locals of [compute_checksums] that the loop changes; [outfile] is
    what has been written to the output file. *)
Record locals : Type := mkLocals {
  outfile : bytes;
  part_buffer : bytes;
  file_part : option bytes;             (* [None]: not bound yet *)
  encrypted_part_checksums : list string;
  total_checksum : hash_object
}.

Definition locals0 : locals := mkLocals [] [] None [] sha256_new.

(** One pass through the body of [while part:] (lines 109-122); the
    exception, if any, comes with the locals as they are when it is
    raised. *)
Definition loop_body (secret part : bytes) (l : locals) : locals * option exn :=
  let outfile' := outfile l ++ part in
  let part_buffer' := part_buffer l ++ part in
  let '(file_part', checksums', part_buffer'') :=
    if len part_buffer' >=? PART_SIZE then
      let fp := slice_to PART_SIZE part_buffer' in
      (Some fp,
       encrypted_part_checksums l ++ [sha256_hexdigest fp],
       slice_from PART_SIZE part_buffer')
    else (file_part l, encrypted_part_checksums l, part_buffer') in
  match decrypt_block part [secret] with
  | inl e =>
      (mkLocals outfile' part_buffer'' file_part' checksums' (total_checksum l),
       Some (Crypt4GHError e))
  | inr decrypted =>
      (mkLocals outfile' part_buffer'' file_part' checksums'
                (update (total_checksum l) decrypted),
       None)
  end.

(** [while part: ...; part = source.read(CIPHER_SEGMENT_SIZE)], with
    [source] the unread rest of the input. *)
Fixpoint while_part (fuel : nat) (secret part source : bytes) (l : locals)
  : locals * result unit :=
  match part with
  | [] => (l, Ok tt)
  | _ :: _ =>
      match fuel with
      | O => (l, Timeout)
      | S fuel' =>
          match loop_body secret part l with
          | (l', Some e) => (l', Raise e)
          | (l', None) =>
              let (part', source') := read CIPHER_SEGMENT_SIZE source in
              while_part fuel' secret part' source' l'
          end
      end
  end.

(** Lines 125-130: the checksum of the last part and the return value. *)
Definition finish (l : locals) : result (list string * string) :=
  if len (part_buffer l) =? 0 then
    Ok (encrypted_part_checksums l, hexdigest (total_checksum l))
  else
    match file_part l with
    | None => Raise (UnboundLocalError "file_part")
    | Some fp =>
        Ok (encrypted_part_checksums l ++ [sha256_hexdigest fp],
            hexdigest (total_checksum l))
    end.

(** The loop and the return on the ciphertext body, that is on what the
    source holds from [offset] on: the bytes written to the output file
    and the outcome. *)
Definition checksums_of_body (secret body : bytes)
  : bytes * result (list string * string) :=
  let (part, source) := read CIPHER_SEGMENT_SIZE body in
  match while_part (length body) secret part source locals0 with
  | (l, Ok _) => (outfile l, finish l)
  | (l, Raise e) => (outfile l, Raise e)
  | (l, Timeout) => (outfile l, Timeout)
  end.

Definition encrypted_content : path := OUTPUT_DIR "encrypted_content".

Definition compute_checksums (file_location : path) (secret : bytes) (offset : Z)
  : M (list string * string) :=
  effect ensure_output_dir ;;;
  _ <- open_rb file_location ;;
  open_wb encrypted_content ;;;
  if offset <? 0 then raise OSError
  else
    (* the source is read after the output file was truncated *)
    content <- open_rb file_location ;;
    let (written, r) := checksums_of_body secret (drop offset content) in
    effect (write_file encrypted_content written) ;;;
    (fun w => (r, w)).

(** *** The key store and the two transfers *)

(** A key as crypt4gh takes it: [(method, private key, public key of the
    other side or None)]. *)
Definition key_tuple : Type := (Z * bytes * option bytes)%type.
Definition EditList : Type := bytes.     (* carried through, never read *)

(** [class Header(NamedTuple)]: the content of a header.  No function of
    the script builds or reads one. *)
Record Header : Type := mkHeader {
  session_keys : list bytes;     (* the encryption secret for the file *)
  edit_list : option EditList
}.

(** The rest of crypt4gh, as the script calls it:
    - [crypt4gh.keys.get_private_key], [get_public_key] on the content of
      a key file ([None]: the file does not hold such a key);
    - [crypt4gh.header.deconstruct(stream, keys)]: the session keys, the
      edit list and the position at which it leaves the stream;
    - [crypt4gh.header.make_packet_data_enc], [encrypt], [serialize];
      [header_encrypt] stands for one call of [encrypt], which draws a
      fresh nonce: nothing here relates the packets of two calls;
    - [crypt4gh.lib.decrypt(keys, infile, outfile, sender_pubkey)]: what
      it writes to [outfile], and the error it raises, if any. *)
Variable parse_private_key : bytes -> option bytes.
Variable parse_public_key : bytes -> option bytes.
Variable deconstruct :
  bytes -> list key_tuple -> crypt4gh_error + (list bytes * option EditList * Z).
Variable make_packet_data_enc : Z -> bytes -> bytes.
Variable header_encrypt : bytes -> list key_tuple -> list bytes.
Variable header_serialize : list bytes -> bytes.
Variable lib_decrypt :
  list key_tuple -> bytes -> option bytes -> bytes * option crypt4gh_error.

(** [str(path)] and [repr] of a list of strings, as f-strings render them. *)
Variable path_str : path -> string.
Variable repr : list string -> string.

Definition get_private_key (p : path) : M bytes :=
  content <- open_rb p ;;
  match parse_private_key content with
  | Some k => ret k
  | None => raise ValueError
  end.

Definition get_public_key (p : path) : M bytes :=
  content <- open_rb p ;;
  match parse_public_key content with
  | Some k => ret k
  | None => raise NotImplementedError
  end.

Definition request_cryp4gh_private_key : M bytes :=
  get_private_key (INPUT_DIR "ghga.sec").

Definition encryption_key_store_upload (file_part : bytes) : M (bytes * string * Z) :=
  ghga_sec <- request_cryp4gh_private_key ;;
  let ghga_keys := [(0, ghga_sec, None)] in
  match deconstruct file_part ghga_keys with
  | inl e => raise (Crypt4GHError e)
  | inr (session_keys, _, content_start) =>
      match session_keys with
      | [] => raise IndexError
      | session_key :: _ =>
          let session_key_id := sha256_hexdigest session_key in
          effect (set_SESSION_KEY session_key) ;;;
          ret (session_key, session_key_id, content_start)
      end
  end.

Definition upload_validated (checksum : string) : string :=
  ("Upload: Checksum '" ++ checksum ++ "' correctly validated")%string.

Definition upload_mismatch (checksum total_checksum : string) : string :=
  ("Upload: Checksum mismatch!" ++ nl ++ "Expected: '" ++ checksum ++ "'" ++ nl
     ++ "Actual: '" ++ total_checksum ++ "'")%string.

Definition upload_summary (part_checksums : list string) (secret_id : string) : string :=
  ("Part checksums: " ++ repr part_checksums ++ nl
     ++ "Encryption secret id: " ++ secret_id)%string.

Definition interrogation_room_upload (file_location : path) (checksum : string) : M unit :=
  source <- open_rb file_location ;;
  let first_part := fst (read PART_SIZE source) in
  '(encryption_secret, encryption_secret_id, offset) <-
    encryption_key_store_upload first_part ;;
  '(part_checksums, total_checksum) <-
    compute_checksums file_location encryption_secret offset ;;
  (if String.eqb total_checksum checksum
   then effect (print (upload_validated checksum))
   else effect (print (upload_mismatch checksum total_checksum))) ;;;
  effect (print (upload_summary part_checksums encryption_secret_id)).

Definition encryption_key_store_download : M bytes :=
  ghga_secret <- get_private_key (INPUT_DIR "ghga.sec") ;;
  user_public <- get_public_key (INPUT_DIR "researcher_2.pub") ;;
  let keys := [(0, ghga_secret, Some user_public)] in
  session_key <- (fun w => match SESSION_KEY w with
                           | Some k => (Ok k, w)
                           | None => (Raise TypeError, w)
                           end) ;;
  let header_content := make_packet_data_enc 0 session_key in
  let header_packets := header_encrypt header_content keys in
  let header_bytes := header_serialize header_packets in
  ret header_bytes.

Definition downloaded_file : path := OUTPUT_DIR "downloaded_file".
Definition decrypted_content : path := OUTPUT_DIR "decrypted_content".

Definition download_mismatch (checksum computed_checksum : string) : string :=
  ("Download: Checksum mismatch for '" ++ path_str decrypted_content ++ "'" ++ nl
     ++ "Expected: " ++ checksum ++ nl ++ "Actual: " ++ computed_checksum)%string.

Definition download_valid : string :=
  ("Download: Checksum valid for " ++ path_str decrypted_content)%string.

Definition download (checksum : string) : M unit :=
  envelope <- encryption_key_store_download ;;
  body <- open_rb encrypted_content ;;
  open_wb downloaded_file ;;;
  effect (write_file downloaded_file (envelope ++ body)) ;;;
  ghga_public <- get_public_key (INPUT_DIR "ghga.pub") ;;
  user_secret <- get_private_key (INPUT_DIR "researcher_2.sec") ;;
  infile <- open_rb downloaded_file ;;
  open_wb decrypted_content ;;;
  let (written, failure) :=
    lib_decrypt [(0, user_secret, Some ghga_public)] infile (Some ghga_public) in
  effect (write_file decrypted_content written) ;;;
  match failure with
  | Some e => raise (Crypt4GHError e)
  | None =>
      plaintext <- open_rb decrypted_content ;;
      let computed_checksum := sha256_hexdigest plaintext in
      if negb (String.eqb checksum computed_checksum)
      then effect (print_stderr (download_mismatch checksum computed_checksum))
      else effect (print download_valid)
  end.

Definition run : M unit :=
  let checksum :=
    "3e67802e821306fe287b85001dbab213a3eb4d2560702c5740741e5111c97841"%string in
  interrogation_room_upload (INPUT_DIR "50MiB.fasta.c4gh") checksum ;;;
  download checksum.

End Script.

(** The message that the upload prints about the checksum. *)
Definition upload_verdict (checksum total_checksum : string) : string :=
  if String.eqb total_checksum checksum
  then upload_validated checksum
  else upload_mismatch checksum total_checksum.

(** ** The loop as a fold over the segments

    The reads of [compute_checksums] cut the body into segments; the loop
    is the fold of its body over them.  Both are stated here and proved to
    be what the loop does (lemma [checksums_of_body_process]). *)

Section Segments.

Variable sha256_hexdigest : bytes -> string.
Variable CIPHER_SEGMENT_SIZE : Z.
Variable decrypt_block : bytes -> list bytes -> crypt4gh_error + bytes.

(** The successive non-empty results of [source.read(CIPHER_SEGMENT_SIZE)]. *)
Fixpoint reads (fuel : nat) (source : bytes) : list bytes :=
  match fuel with
  | O => []
  | S fuel' =>
      match read CIPHER_SEGMENT_SIZE source with
      | ([], _) => []
      | (part, rest) => part :: reads fuel' rest
      end
  end.

Definition segments (body : bytes) : list bytes := reads (length body) body.

(** The loop body over a list of segments, up to the first exception. *)
Fixpoint process (secret : bytes) (segs : list bytes) (l : locals) : locals * option exn :=
  match segs with
  | [] => (l, None)
  | part :: segs' =>
      match loop_body sha256_hexdigest decrypt_block secret part l with
      | (l', Some e) => (l', Some e)
      | (l', None) => process secret segs' l'
      end
  end.

(** [plaintexts] are the decryptions of [segs] under [secret], in order. *)
Definition decrypts_to (secret : bytes) (segs plaintexts : list bytes) : Prop :=
  Forall2 (fun s p => decrypt_block s [secret] = inr p) segs plaintexts.

(** The [i]-th part of the body: its bytes in
    [[i * PART_SIZE, (i + 1) * PART_SIZE)]. *)
Definition body_part (body : bytes) (i : nat) : bytes :=
  take PART_SIZE (drop (Z.of_nat i * PART_SIZE) body).

(** The last of the parts that were cut so far, if any. *)
Definition last_part (parts : list bytes) : option bytes :=
  match parts with
  | [] => None
  | _ :: _ => Some (last parts [])
  end.

(** What the locals hold once [consumed] has been read, when no segment is
    longer than a part: the full parts cut so far, in order, followed by
    the part buffer, make up [consumed]; there is one checksum for each
    part; [file_part] is the last of them. *)
Definition parts_inv (consumed : bytes) (l : locals) : Prop :=
  exists parts : list bytes,
    consumed = concat parts ++ part_buffer l
    /\ Forall (fun p => len p = PART_SIZE) parts
    /\ len (part_buffer l) < PART_SIZE
    /\ encrypted_part_checksums l = map sha256_hexdigest parts
    /\ file_part l = last_part parts.

(** As long as no part was cut, the part buffer is all that was written. *)
Definition unbound_inv (l : locals) : Prop :=
  file_part l = None ->
  part_buffer l = outfile l /\ len (part_buffer l) < PART_SIZE
  /\ encrypted_part_checksums l = [].

End Segments.

(** ** Crypt4GH, after the design

    The script leaves the container format and the ciphers to the crypt4gh
    package.  What follows models the package after the design document
    (envelope codec, segmented stream cipher); the two ciphers and the
    layout of a packet payload stay parameters. *)

Module Crypt4GH.

(** A byte as the number it stands for, and back. *)
Definition byte_of_Z (n : Z) : byte :=
  match Byte.of_N (Z.to_N (n mod 256)) with
  | Some b => b
  | None => x00
  end.

Definition Z_of_byte (b : byte) : Z := Z.of_N (Byte.to_N b).

(** Modelled from the spec: the 4-byte little-endian unsigned integers of
    the wire format (version, packet count, length prefix). *)
Definition to_le32 (n : Z) : bytes :=
  [byte_of_Z n; byte_of_Z (n / 2 ^ 8); byte_of_Z (n / 2 ^ 16); byte_of_Z (n / 2 ^ 24)].

Definition from_le32 (b : bytes) : option Z :=
  match b with
  | [b0; b1; b2; b3] =>
      Some (Z_of_byte b0 + 2 ^ 8 * Z_of_byte b1 + 2 ^ 16 * Z_of_byte b2
            + 2 ^ 24 * Z_of_byte b3)
  | _ => None
  end.

Fixpoint bytes_eqb (a b : bytes) : bool :=
  match a, b with
  | [], [] => true
  | x :: a', y :: b' => Byte.eqb x y && bytes_eqb a' b'
  | _, _ => false
  end.

(** Modelled from the spec: the magic constant (8 bytes) and the one
    accepted version; the values are those of the crypt4gh format. *)
Definition MAGIC_NUMBER : bytes := list_byte_of_string "crypt4gh".
Definition VERSION : Z := 1.

(** Modelled from the spec: what an opened packet yields. *)
Inductive record : Type :=
| SessionKeyRecord (key : bytes)
| EditListRecord (ranges : bytes).

(** Modelled from the spec: the outcome of one header packet. *)
Inductive packet_result : Type :=
| Opened (r : record)
| Skipped.

(** Modelled from the spec: a field of the wire format, exactly [n] bytes
    of the stream, or nothing when the stream ends before. *)
Definition read_exact (n : Z) (stream : bytes) : option (bytes * bytes) :=
  if len stream <? n then None else Some (take n stream, drop n stream).

Definition session_keys_of (results : list packet_result) : list bytes :=
  flat_map (fun r => match r with
                     | Opened (SessionKeyRecord k) => [k]
                     | _ => []
                     end) results.

Definition edit_list_of (results : list packet_result) : option EditList :=
  hd_error (flat_map (fun r => match r with
                               | Opened (EditListRecord e) => [e]
                               | _ => []
                               end) results).

Definition opened (r : packet_result) : bool :=
  match r with
  | Opened _ => true
  | Skipped => false
  end.

Section Model.

(** Modelled from the spec: the Key Exchange Unit,
    [seal(payload, sender_private_key, recipient_public_key)] and
    [open(packet_ciphertext, recipient_private_key)] ([None]: the
    authentication fails); and the cipher of one body segment under one
    session key. *)
Variable seal : bytes -> bytes -> bytes -> bytes.
Variable open_sealed : bytes -> bytes -> option bytes.
Variable segment_decrypt : bytes -> bytes -> option bytes.

(** The layout of a packet payload, which the design leaves open:
    [crypt4gh.header.make_packet_data_enc(method, session_key)] builds the
    payload of a session-key packet, and [parse_payload] reads an opened
    payload as one of the two records ([None]: it is neither). *)
Variable make_packet_data_enc : Z -> bytes -> bytes.
Variable parse_payload : bytes -> option record.

Variable CIPHER_SEGMENT_SIZE : Z.

(** Modelled from the spec: a packet is tried against every recipient key
    in order until one opens it. *)
Fixpoint open_any (recipient_keys : list key_tuple) (packet : bytes) : option bytes :=
  match recipient_keys with
  | [] => None
  | (_, private_key, _) :: keys' =>
      match open_sealed packet private_key with
      | Some payload => Some payload
      | None => open_any keys' packet
      end
  end.

(** Modelled from the spec: a packet that no key opens is skipped (it is
    meant for another recipient); an opened one must hold a record. *)
Definition packet_outcome (recipient_keys : list key_tuple) (packet : bytes)
  : option packet_result :=
  match open_any recipient_keys packet with
  | None => Some Skipped
  | Some payload => option_map Opened (parse_payload payload)
  end.

(** Modelled from the spec: the declared packets, each a length prefix and
    that many bytes; a packet that no key opens is skipped.  Every packet
    takes at least its prefix from the stream, so [fuel], the length of the
    stream, is never the reason of a failure. *)
Fixpoint read_packets (fuel : nat) (count : Z) (recipient_keys : list key_tuple)
    (stream : bytes) : crypt4gh_error + (list packet_result * bytes) :=
  if count <=? 0 then inr ([], stream)
  else
    match fuel with
    | O => inl MalformedContainer
    | S fuel' =>
        match read_exact 4 stream with
        | None => inl MalformedContainer
        | Some (prefix, stream1) =>
            match from_le32 prefix with
            | None => inl MalformedContainer
            | Some n =>
                match read_exact n stream1 with
                | None => inl MalformedContainer
                | Some (packet, stream2) =>
                    match packet_outcome recipient_keys packet with
                    | None => inl MalformedContainer
                    | Some r =>
                        match read_packets fuel' (count - 1) recipient_keys stream2 with
                        | inl e => inl e
                        | inr (results, rest) => inr (r :: results, rest)
                        end
                    end
                end
            end
        end
    end.

(** Modelled from the spec: [decode_header], which is
    [crypt4gh.header.deconstruct] together with the position it leaves the
    stream at. *)
Definition decode_header (stream : bytes) (recipient_keys : list key_tuple)
  : crypt4gh_error + (list bytes * option EditList * Z) :=
  match read_exact 8 stream with
  | None => inl MalformedContainer
  | Some (magic, stream1) =>
      if negb (bytes_eqb magic MAGIC_NUMBER) then inl MalformedContainer
      else
        match read_exact 4 stream1 with
        | None => inl MalformedContainer
        | Some (version, stream2) =>
            if negb (match from_le32 version with
                     | Some v => v =? VERSION
                     | None => false
                     end)
            then inl UnsupportedVersion
            else
              match read_exact 4 stream2 with
              | None => inl MalformedContainer
              | Some (count, stream3) =>
                  match from_le32 count with
                  | None => inl MalformedContainer
                  | Some n =>
                      match read_packets (length stream3) n recipient_keys stream3 with
                      | inl e => inl e
                      | inr (results, rest) =>
                          if existsb opened results
                          then inr (session_keys_of results, edit_list_of results,
                                    len stream - len rest)
                          else inl NoUsableKey
                      end
                  end
              end
        end
  end.

(** Modelled from the spec: [crypt4gh.header.encrypt], the payload sealed
    once for each recipient. *)
Definition header_encrypt (header_content : bytes) (keys : list key_tuple) : list bytes :=
  flat_map (fun k => match k with
                     | (_, private_key, Some recipient_public_key) =>
                         [seal header_content private_key recipient_public_key]
                     | (_, _, None) => []
                     end) keys.

(** Modelled from the spec: a packet behind its 4-byte length prefix. *)
Definition frame (packet : bytes) : bytes := to_le32 (len packet) ++ packet.

(** Modelled from the spec: magic, version, packet count, then every packet
    behind its length prefix. *)
Definition header_serialize (packets : list bytes) : bytes :=
  MAGIC_NUMBER ++ to_le32 VERSION ++ to_le32 (len packets)
    ++ concat (map frame packets).

(** Modelled from the spec: [encode_header], a header of one packet. *)
Definition encode_header (session_key sender_private_key recipient_public_key : bytes)
  : bytes :=
  header_serialize
    (header_encrypt (make_packet_data_enc 0 session_key)
                    [(0, sender_private_key, Some recipient_public_key)]).

(** Modelled from the spec: [crypt4gh.lib.decrypt_block], each candidate
    session key in order until one authenticates the segment. *)
Fixpoint decrypt_block (ciphersegment : bytes) (session_keys : list bytes)
  : crypt4gh_error + bytes :=
  match session_keys with
  | [] => inl AuthenticationFailure
  | key :: keys' =>
      match segment_decrypt key ciphersegment with
      | Some plaintext => inr plaintext
      | None => decrypt_block ciphersegment keys'
      end
  end.

(** Modelled from the spec: the key that authenticates the first segment. *)
Fixpoint select_key (session_keys : list bytes) (first_segment : bytes)
  : option (bytes * bytes) :=
  match session_keys with
  | [] => None
  | key :: keys' =>
      match segment_decrypt key first_segment with
      | Some plaintext => Some (key, plaintext)
      | None => select_key keys' first_segment
      end
  end.

(** Modelled from the spec: the segments after the first, under the
    selected key alone; what is written, and the failure if a segment does
    not authenticate. *)
Fixpoint decrypt_rest (key : bytes) (segs : list bytes) (written : bytes)
  : bytes * option crypt4gh_error :=
  match segs with
  | [] => (written, None)
  | s :: segs' =>
      match segment_decrypt key s with
      | Some plaintext => decrypt_rest key segs' (written ++ plaintext)
      | None => (written, Some AuthenticationFailure)
      end
  end.

(** Modelled from the spec: [decrypt_body], the segmented stream cipher. *)
Definition decrypt_body (body : bytes) (candidate_session_keys : list bytes)
  : bytes * option crypt4gh_error :=
  match segments CIPHER_SEGMENT_SIZE body with
  | [] => ([], None)
  | first :: segs =>
      match select_key candidate_session_keys first with
      | None => ([], Some NoValidSessionKey)
      | Some (key, plaintext) => decrypt_rest key segs plaintext
      end
  end.

(** Modelled from the spec: [crypt4gh.lib.decrypt], the header decoded with
    the reader's keys and the body decrypted behind it. *)
Definition lib_decrypt (keys : list key_tuple) (infile : bytes) (sender_pubkey : option bytes)
  : bytes * option crypt4gh_error :=
  match decode_header infile keys with
  | inl e => ([], Some e)
  | inr (session_keys, _, body_start) => decrypt_body (drop body_start infile) session_keys
  end.

End Model.

End Crypt4GH.

(** ** A small instance

    Stand-ins for the hash and the ciphers, and worlds to run the script
    on.  The stand-in digest of some data is the data itself, as text; a
    packet sealed for a recipient is the recipient's key followed by the
    payload; a segment encrypted under a session key is the first byte of
    the key followed by the plaintext. *)

Module Demo.
Import Crypt4GH.

Definition b (s : string) : bytes := list_byte_of_string s.

Definition digest (data : bytes) : string := string_of_list_byte data.

Definition seal (payload sender_private recipient_public : bytes) : bytes :=
  recipient_public ++ payload.

Definition open_sealed (packet recipient_private : bytes) : option bytes :=
  if bytes_eqb (take (len recipient_private) packet) recipient_private
  then Some (drop (len recipient_private) packet)
  else None.

Definition segment_decrypt (key segment : bytes) : option bytes :=
  match segment with
  | tag :: plaintext => if bytes_eqb [tag] (take 1 key) then Some plaintext else None
  | [] => None
  end.

(** The payload of a session-key packet, in the layout of crypt4gh: the
    packet type 0, the encryption method, the key of 32 bytes; the packet
    type 1 is an edit list. *)
Definition make_packet_data_enc (encryption_method : Z) (session_key : bytes) : bytes :=
  to_le32 0 ++ to_le32 encryption_method ++ session_key.

Definition parse_payload (payload : bytes) : option record :=
  match from_le32 (take 4 payload) with
  | Some 0 =>
      match from_le32 (take 4 (drop 4 payload)) with
      | Some 0 =>
          let key := drop 8 payload in
          if len key =? 32 then Some (SessionKeyRecord key) else None
      | _ => None
      end
  | Some 1 => Some (EditListRecord (drop 4 payload))
  | _ => None
  end.

(** A cipher that leaves the segment as it is, under any key. *)
Definition null_cipher (segment : bytes) (keys : list bytes) : crypt4gh_error + bytes :=
  inr segment.

Definition parse_key (content : bytes) : option bytes := Some content.

Definition path_str (p : path) : string :=
  match p with
  | INPUT_DIR name => "input_files/" ++ name
  | OUTPUT_DIR name => "output_files/" ++ name
  end%string.

Definition repr (l : list string) : string :=
  ("[" ++ String.concat ", " (map (fun x => "'" ++ x ++ "'") l) ++ "]")%string.

(** crypt4gh's segment size: 64 KiB of plaintext, nonce and tag. *)
Definition segment_size : Z := 65536 + 28.

Definition K1 : bytes := b "1-first-session-key-of-32-bytes-".
Definition K2 : bytes := b "2-second-session-key-of-32-bytes".

Definition input : path := INPUT_DIR "50MiB.fasta.c4gh".

(** The key files, and the input file with [content]. *)
Definition world_with (content : bytes) (session_key : option bytes) : world :=
  mkWorld
    (fun p =>
       if path_eqb p input then Some content
       else if path_eqb p (INPUT_DIR "ghga.sec") then Some (b "G")
       else if path_eqb p (INPUT_DIR "ghga.pub") then Some (b "G")
       else if path_eqb p (INPUT_DIR "researcher_2.sec") then Some (b "R")
       else if path_eqb p (INPUT_DIR "researcher_2.pub") then Some (b "R")
       else None)
    false [] [] session_key.

(** A header with two session-key packets for GHGA, and a body of one
    segment that only the second key authenticates. *)
Definition two_key_header : bytes :=
  header_serialize [seal (make_packet_data_enc 0 K1) (b "S") (b "G");
                    seal (make_packet_data_enc 0 K2) (b "S") (b "G")].

Definition two_key_file : bytes := two_key_header ++ b "2plaintext".

(** A world after an upload: the output directory holds the encrypted
    content and the session key is set. *)
Definition world_after_upload (body : bytes) : world :=
  set_SESSION_KEY K1
    (write_file (OUTPUT_DIR "encrypted_content") body
       (mkdir_output (world_with [] None))).

(** Three full parts and one more byte, never evaluated. *)
Definition three_parts_and_a_byte : bytes :=
  repeat x00 (Z.to_nat PART_SIZE) ++ repeat x01 (Z.to_nat PART_SIZE)
    ++ repeat x02 (Z.to_nat PART_SIZE) ++ [xff].

Definition one_part : bytes := repeat x00 (Z.to_nat PART_SIZE).

(** A key store that finds [K1] in no header at all. *)
Definition deconstruct_K1 (stream : bytes) (keys : list key_tuple)
  : crypt4gh_error + (list bytes * option EditList * Z) :=
  inr ([K1], None, 0).

End Demo.

(** More worlds for concrete runs. *)

Module DemoWorlds.
Import Demo.

(** Three segments of two bytes; the second is not under [K1]. *)
Definition tampered_body : bytes := b "1a2b1c".

(** The header of two session keys in front of a body of one segment
    under the first of them. *)
Definition readable_file : bytes := two_key_header ++ b "1plaintext".

(** A world with the keys and the session key, before any upload wrote to
    the output directory. *)
Definition world_without_upload : world := world_with [] (Some K1).

(** A world without the input file and without key files. *)
Definition empty_world : world := mkWorld (fun _ => None) false [] [] None.

(** A world that holds the input file and no key file. *)
Definition world_without_keys (content : bytes) : world :=
  mkWorld (fun p => if path_eqb p input then Some content else None) false [] [] None.

(** Key stores that fail, or find no session key. *)
Definition deconstruct_fails (stream : bytes) (keys : list key_tuple)
  : crypt4gh_error + (list bytes * option EditList * Z) :=
  inl NoUsableKey.

Definition deconstruct_no_key (stream : bytes) (keys : list key_tuple)
  : crypt4gh_error + (list bytes * option EditList * Z) :=
  inr ([], None, 0).

End DemoWorlds.

(** * Verification *)

(** ** Slices and reads *)

Module PyFacts.

Lemma take_firstn {A} (l : list A) : forall n, take n l = firstn (Z.to_nat n) l.
Proof.
  induction l as [|x l IH]; intros n; simpl.
  - now rewrite firstn_nil.
  - destruct (Z.ltb_spec 0 n) as [Hn|Hn].
    + rewrite IH. replace (Z.to_nat n) with (S (Z.to_nat (n - 1))) by lia.
      reflexivity.
    + replace (Z.to_nat n) with O by lia. reflexivity.
Qed.

Lemma drop_skipn {A} (l : list A) : forall n, drop n l = skipn (Z.to_nat n) l.
Proof.
  induction l as [|x l IH]; intros n; simpl.
  - now rewrite skipn_nil.
  - destruct (Z.ltb_spec 0 n) as [Hn|Hn].
    + rewrite IH. replace (Z.to_nat n) with (S (Z.to_nat (n - 1))) by lia.
      reflexivity.
    + replace (Z.to_nat n) with O by lia. reflexivity.
Qed.

Lemma take_drop {A} n (l : list A) : take n l ++ drop n l = l.
Proof. rewrite take_firstn, drop_skipn. apply firstn_skipn. Qed.

Lemma len_app {A} (a b : list A) : len (a ++ b) = len a + len b.
Proof. unfold len. rewrite length_app. lia. Qed.

Lemma len_nonneg {A} (l : list A) : 0 <= len l.
Proof. unfold len. lia. Qed.

Lemma len_nil_iff {A} (l : list A) : len l = 0 <-> l = [].
Proof.
  unfold len. destruct l; simpl; split; intros H; try reflexivity; try lia.
  discriminate.
Qed.

Lemma len_take {A} n (l : list A) : 0 <= n -> len (take n l) = Z.min n (len l).
Proof. intros Hn. unfold len. rewrite take_firstn, length_firstn. lia. Qed.

Lemma len_drop {A} n (l : list A) : 0 <= n -> len (drop n l) = len l - Z.min n (len l).
Proof. intros Hn. unfold len. rewrite drop_skipn, length_skipn. lia. Qed.

Lemma take_all {A} n (l : list A) : len l <= n -> take n l = l.
Proof. unfold len. intros H. rewrite take_firstn. apply firstn_all2. lia. Qed.

Lemma drop_all {A} n (l : list A) : len l <= n -> drop n l = [].
Proof. unfold len. intros H. rewrite drop_skipn. apply skipn_all2. lia. Qed.

Lemma drop_0 {A} n (l : list A) : n <= 0 -> drop n l = l.
Proof. intros H. rewrite drop_skipn. now replace (Z.to_nat n) with O by lia. Qed.

Lemma take_app_exact {A} (a b : list A) : take (len a) (a ++ b) = a.
Proof.
  unfold len. rewrite take_firstn, Nat2Z.id, firstn_app, Nat.sub_diag, firstn_all.
  simpl. apply app_nil_r.
Qed.

Lemma drop_app_exact {A} (a b : list A) : drop (len a) (a ++ b) = b.
Proof.
  unfold len. rewrite drop_skipn, Nat2Z.id, skipn_app, Nat.sub_diag, skipn_all.
  reflexivity.
Qed.

Lemma drop_app_ge {A} n (a b : list A) :
  len a <= n -> drop n (a ++ b) = drop (n - len a) b.
Proof.
  unfold len. intros H. rewrite !drop_skipn, skipn_app, skipn_all2 by lia.
  simpl. f_equal. lia.
Qed.

Lemma slice_to_take {A} n (b : list A) : 0 <= n -> slice_to n b = take n b.
Proof. intros H. unfold slice_to. destruct (Z.ltb_spec n 0); [lia | reflexivity]. Qed.

Lemma slice_from_drop {A} n (b : list A) : 0 <= n -> slice_from n b = drop n b.
Proof. intros H. unfold slice_from. destruct (Z.ltb_spec n 0); [lia | reflexivity]. Qed.

(** Two splittings of one list at the same length are the same. *)
Lemma app_eq_len {A} (a b c d : list A) :
  a ++ b = c ++ d -> len a = len c -> a = c /\ b = d.
Proof.
  unfold len. revert c. induction a as [|x a IH]; intros [|y c] H Hl;
    simpl in *; try lia.
  - now split.
  - injection H as -> H. destruct (IH c H) as [-> ->]; [lia | now split].
Qed.

(** A read that returns data shortens the stream. *)
Lemma read_shrinks n stream part rest :
  read n stream = (part, rest) -> part <> [] ->
  (length rest < length stream)%nat.
Proof.
  unfold read. destruct (Z.ltb_spec n 0) as [Hn|Hn]; intros [= <- <-] Hp.
  - destruct stream; [congruence | simpl; lia].
  - rewrite drop_skipn, length_skipn.
    destruct stream as [|x s]; [now destruct Hp|].
    simpl in Hp. destruct (Z.ltb_spec 0 n); [|congruence].
    replace (Z.to_nat n) with (S (Z.to_nat (n - 1))) by lia. simpl. lia.
Qed.

Lemma read_positive n stream :
  0 < n -> read n stream = (take n stream, drop n stream).
Proof. intros H. unfold read. destruct (Z.ltb_spec n 0); [lia | reflexivity]. Qed.

End PyFacts.
Import PyFacts.

Lemma PART_SIZE_pos : 0 < PART_SIZE.
Proof. reflexivity. Qed.

Lemma PART_SIZE_value : PART_SIZE = 16777216.
Proof. reflexivity. Qed.

Global Opaque PART_SIZE.

(** ** The loop of [compute_checksums] *)

Section LoopFacts.

Variable sha256_hexdigest : bytes -> string.
Variable CIPHER_SEGMENT_SIZE : Z.
Variable decrypt_block : bytes -> list bytes -> crypt4gh_error + bytes.

#[local] Abbreviation loop_body := (loop_body sha256_hexdigest decrypt_block).
#[local] Abbreviation while_part := (while_part sha256_hexdigest CIPHER_SEGMENT_SIZE decrypt_block).
#[local] Abbreviation process := (process sha256_hexdigest decrypt_block).
#[local] Abbreviation reads := (reads CIPHER_SEGMENT_SIZE).
#[local] Abbreviation segments := (segments CIPHER_SEGMENT_SIZE).
#[local] Abbreviation checksums_of_body :=
  (checksums_of_body sha256_hexdigest CIPHER_SEGMENT_SIZE decrypt_block).
#[local] Abbreviation decrypts_to := (decrypts_to decrypt_block).

(** With fuel for every byte left, the loop is the fold over the reads,
    and never runs out of fuel. *)
Lemma while_part_fuel secret : forall fuel source l,
  (length source <= fuel)%nat ->
  while_part fuel secret (fst (read CIPHER_SEGMENT_SIZE source))
             (snd (read CIPHER_SEGMENT_SIZE source)) l
  = match process secret (reads fuel source) l with
    | (l', None) => (l', Ok tt)
    | (l', Some e) => (l', Raise e)
    end.
Proof.
  induction fuel as [|fuel IH]; intros source l Hlen.
  - destruct source; [|simpl in Hlen; lia].
    unfold read. destruct (CIPHER_SEGMENT_SIZE <? 0); reflexivity.
  - destruct (read CIPHER_SEGMENT_SIZE source) as [part rest] eqn:Hread.
    cbn [fst snd reads]. rewrite Hread.
    destruct part as [|b part]; [reflexivity|].
    cbn [while_part process].
    destruct (loop_body secret (b :: part) l) as [l' [e|]]; [reflexivity|].
    assert (Hs : (length rest < length source)%nat)
      by (eapply read_shrinks; [exact Hread | discriminate]).
    specialize (IH rest l' ltac:(lia)).
    destruct (read CIPHER_SEGMENT_SIZE rest) as [part' rest'].
    exact IH.
Qed.

Lemma checksums_of_body_process secret body :
  checksums_of_body secret body
  = match process secret (segments body) locals0 with
    | (l, None) => (outfile l, finish sha256_hexdigest l)
    | (l, Some e) => (outfile l, Raise e)
    end.
Proof.
  unfold checksums_of_body, segments.
  pose proof (while_part_fuel secret (length body) body locals0 (le_n _)) as H.
  destruct (read CIPHER_SEGMENT_SIZE body) as [part source]. cbn [fst snd] in H.
  rewrite H. destruct (process secret _ locals0) as [l [e|]]; reflexivity.
Qed.

(** *** The segments *)

Lemma reads_enough : forall fuel fuel' source,
  (length source <= fuel)%nat -> (length source <= fuel')%nat ->
  reads fuel source = reads fuel' source.
Proof.
  induction fuel as [|fuel IH]; intros fuel' source H H'.
  - destruct source; [|simpl in H; lia]. destruct fuel'; [reflexivity|].
    simpl. unfold read. destruct (CIPHER_SEGMENT_SIZE <? 0); reflexivity.
  - destruct fuel' as [|fuel'].
    + destruct source; [|simpl in H'; lia].
      simpl. unfold read. destruct (CIPHER_SEGMENT_SIZE <? 0); reflexivity.
    + simpl. destruct (read CIPHER_SEGMENT_SIZE source) as [part rest] eqn:Hread.
      destruct part as [|b part]; [reflexivity|].
      assert (Hs : (length rest < length source)%nat)
        by (eapply read_shrinks; [exact Hread | discriminate]).
      f_equal. apply IH; lia.
Qed.

Lemma segments_nil : segments [] = [].
Proof. reflexivity. Qed.

Lemma segments_cons body :
  0 < CIPHER_SEGMENT_SIZE -> body <> [] ->
  segments body
  = take CIPHER_SEGMENT_SIZE body :: segments (drop CIPHER_SEGMENT_SIZE body).
Proof.
  intros Hseg Hne. unfold segments.
  destruct body as [|b body]; [congruence|].
  cbn [length reads]. rewrite read_positive by assumption.
  assert (Hlen : (length (drop CIPHER_SEGMENT_SIZE (b :: body)) <= length body)%nat).
  { rewrite drop_skipn, length_skipn. cbn [length]. lia. }
  cbn [take]. destruct (Z.ltb_spec 0 CIPHER_SEGMENT_SIZE); [|lia].
  f_equal. apply reads_enough; [exact Hlen | apply le_n].
Qed.

Lemma segments_induction (P : bytes -> Prop) :
  0 < CIPHER_SEGMENT_SIZE ->
  P [] ->
  (forall body, body <> [] -> P (drop CIPHER_SEGMENT_SIZE body) -> P body) ->
  forall body, P body.
Proof.
  intros Hseg Hnil Hstep body.
  remember (length body) as n eqn:Hn.
  revert body Hn. induction n as [n IH] using lt_wf_ind. intros body Hn.
  destruct body as [|b body]; [exact Hnil|].
  apply Hstep; [discriminate|].
  apply (IH (length (drop CIPHER_SEGMENT_SIZE (b :: body)))); [|reflexivity].
  subst n. rewrite drop_skipn, length_skipn. cbn [length]. lia.
Qed.

Lemma concat_segments body :
  0 < CIPHER_SEGMENT_SIZE -> concat (segments body) = body.
Proof.
  intros Hseg. revert body.
  refine (segments_induction _ Hseg _ _); [reflexivity | intros body Hne IH].
  rewrite segments_cons by assumption. cbn [concat]. rewrite IH.
  apply take_drop.
Qed.

Lemma segments_bounds body :
  0 < CIPHER_SEGMENT_SIZE ->
  Forall (fun s => 0 < len s <= CIPHER_SEGMENT_SIZE /\ len s <= len body) (segments body).
Proof.
  clear sha256_hexdigest decrypt_block. intros Hseg. revert body.
  refine (segments_induction _ Hseg _ _); [constructor | intros body Hne IH].
  rewrite segments_cons by assumption. constructor.
  - rewrite len_take by lia.
    assert (0 < len body).
    { pose proof (len_nonneg body). pose proof (len_nil_iff body). 
      destruct (Z.eq_dec (len body) 0); [tauto | lia]. }
    lia.
  - eapply Forall_impl; [|exact IH]. cbv beta. intros s [H1 H2].
    split; [exact H1|]. rewrite len_drop in H2 by lia. pose proof (len_nonneg body). lia.
Qed.

(** *** One pass through the loop body *)

Lemma loop_body_outfile secret part l :
  outfile (fst (loop_body secret part l)) = outfile l ++ part.
Proof.
  unfold loop_body.
  destruct (len (part_buffer l ++ part) >=? PART_SIZE);
    destruct (decrypt_block part [secret]); reflexivity.
Qed.

Lemma loop_body_decrypted secret part l p :
  decrypt_block part [secret] = inr p ->
  snd (loop_body secret part l) = None
  /\ total_checksum (fst (loop_body secret part l)) = total_checksum l ++ p.
Proof.
  intros H. unfold loop_body. rewrite H.
  destruct (len (part_buffer l ++ part) >=? PART_SIZE); split; reflexivity.
Qed.

Lemma loop_body_failed secret part l e :
  decrypt_block part [secret] = inl e ->
  snd (loop_body secret part l) = Some (Crypt4GHError e).
Proof.
  intros H. unfold loop_body. rewrite H.
  destruct (len (part_buffer l ++ part) >=? PART_SIZE); reflexivity.
Qed.

Lemma loop_body_raises secret part l e :
  snd (loop_body secret part l) = Some e ->
  exists c, e = Crypt4GHError c /\ decrypt_block part [secret] = inl c.
Proof.
  unfold loop_body.
  destruct (len (part_buffer l ++ part) >=? PART_SIZE);
    destruct (decrypt_block part [secret]) as [c|p]; cbn; intros [= <-] || discriminate;
    now exists c.
Qed.

Lemma last_part_snoc parts p : last_part (parts ++ [p]) = Some p.
Proof.
  unfold last_part. rewrite last_last. destruct parts; reflexivity.
Qed.

Lemma loop_body_parts_inv secret part l consumed :
  parts_inv sha256_hexdigest consumed l ->
  len part <= PART_SIZE ->
  parts_inv sha256_hexdigest (consumed ++ part) (fst (loop_body secret part l)).
Proof.
  intros (parts & Hc & Hall & Hbuf & Hck & Hfp) Hpart.
  pose proof PART_SIZE_pos as Hpos.
  unfold loop_body.
  destruct (Z.geb_spec (len (part_buffer l ++ part)) PART_SIZE) as [Hge|Hlt].
  - exists (parts ++ [take PART_SIZE (part_buffer l ++ part)]).
    rewrite slice_to_take, slice_from_drop by lia.
    rewrite len_app in Hge.
    destruct (decrypt_block part [secret]); cbn [fst part_buffer
      encrypted_part_checksums file_part];
      (repeat split;
       [ rewrite Hc, concat_app; cbn [concat]; rewrite app_nil_r, <- !app_assoc;
         now rewrite take_drop
       | apply Forall_app; split; [exact Hall|]; constructor; [|constructor];
         rewrite len_take, len_app by lia; lia
       | rewrite len_drop, len_app by lia; lia
       | rewrite Hck, map_app; reflexivity
       | now rewrite last_part_snoc ]).
  - exists parts.
    destruct (decrypt_block part [secret]); cbn [fst part_buffer
      encrypted_part_checksums file_part];
      (repeat split; [ now rewrite Hc, app_assoc | exact Hall | lia | exact Hck | exact Hfp ]).
Qed.

Lemma loop_body_unbound_inv secret part l :
  unbound_inv l -> unbound_inv (fst (loop_body secret part l)).
Proof.
  unfold unbound_inv, loop_body. intros Hinv.
  destruct (Z.geb_spec (len (part_buffer l ++ part)) PART_SIZE) as [Hge|Hlt];
    destruct (decrypt_block part [secret]); cbn [fst part_buffer outfile file_part
      encrypted_part_checksums]; intros Hnone; try discriminate;
    destruct (Hinv Hnone) as (-> & _ & ->); repeat split; try reflexivity;
    rewrite <- (proj1 (Hinv Hnone)); exact Hlt.
Qed.

(** *** The whole loop *)

Lemma process_outfile secret : forall segs l,
  snd (process secret segs l) = None ->
  outfile (fst (process secret segs l)) = outfile l ++ concat segs.
Proof.
  induction segs as [|part segs IH]; intros l; cbn [process concat].
  - intros _. now rewrite app_nil_r.
  - pose proof (loop_body_outfile secret part l) as Hout.
    destruct (loop_body secret part l) as [l' [e|]]; [discriminate|].
    intros H. rewrite (IH l' H). cbn [fst] in Hout. now rewrite Hout, app_assoc.
Qed.

(** The locals after the first segments are those the loop goes through
    on its way over all of them. *)
Lemma process_app secret : forall segs segs' l,
  process secret (segs ++ segs') l
  = match process secret segs l with
    | (l', None) => process secret segs' l'
    | (l', Some e) => (l', Some e)
    end.
Proof.
  induction segs as [|part segs IH]; intros segs' l; cbn [process app].
  - reflexivity.
  - destruct (loop_body secret part l) as [l' [e|]]; [reflexivity | apply IH].
Qed.

Lemma process_decrypts secret : forall segs plaintexts l,
  decrypts_to secret segs plaintexts ->
  snd (process secret segs l) = None
  /\ total_checksum (fst (process secret segs l))
     = total_checksum l ++ concat plaintexts.
Proof.
  intros segs plaintexts l H. revert l.
  induction H as [|part p segs ps Hp _ IH]; intros l; cbn [process concat].
  - split; [reflexivity | now rewrite app_nil_r].
  - destruct (loop_body_decrypted secret part l p Hp) as [Hnone Htot].
    destruct (loop_body secret part l) as [l' r]. cbn [fst snd] in *. subst r.
    destruct (IH l') as [H1 H2]. split; [exact H1|].
    now rewrite H2, Htot, app_assoc.
Qed.

Lemma process_succeeds secret : forall segs l,
  snd (process secret segs l) = None ->
  exists plaintexts, decrypts_to secret segs plaintexts.
Proof.
  induction segs as [|part segs IH]; intros l; cbn [process].
  - intros _. exists []. constructor.
  - destruct (decrypt_block part [secret]) as [c|p] eqn:Hd.
    + pose proof (loop_body_failed secret part l c Hd) as Hf.
      destruct (loop_body secret part l) as [l' r]. cbn [snd] in Hf. subst r.
      discriminate.
    + destruct (loop_body_decrypted secret part l p Hd) as [Hnone _].
      destruct (loop_body secret part l) as [l' r]. cbn [snd] in Hnone. subst r.
      intros H. destruct (IH l' H) as [ps Hps]. exists (p :: ps).
      now constructor.
Qed.

Lemma process_raises secret : forall segs l e,
  snd (process secret segs l) = Some e -> exists c, e = Crypt4GHError c.
Proof.
  induction segs as [|part segs IH]; intros l e; cbn [process].
  - discriminate.
  - pose proof (loop_body_raises secret part l) as Hr.
    destruct (loop_body secret part l) as [l' [e'|]]; cbn [snd] in *.
    + intros [= <-]. destruct (Hr e' eq_refl) as (c & -> & _). now exists c.
    + apply IH.
Qed.

Lemma process_parts_inv secret : forall segs l consumed,
  parts_inv sha256_hexdigest consumed l ->
  Forall (fun s => len s <= PART_SIZE) segs ->
  snd (process secret segs l) = None ->
  parts_inv sha256_hexdigest (consumed ++ concat segs) (fst (process secret segs l)).
Proof.
  induction segs as [|part segs IH]; intros l consumed Hinv Hall;
    cbn [process concat].
  - intros _. now rewrite app_nil_r.
  - inversion Hall as [|? ? Hpart Hall']; subst.
    pose proof (loop_body_parts_inv secret part l consumed Hinv Hpart) as Hstep.
    destruct (loop_body secret part l) as [l' [e|]]; [discriminate|].
    intros H. rewrite app_assoc. now apply IH.
Qed.

Lemma process_unbound_inv secret : forall segs l,
  unbound_inv l -> unbound_inv (fst (process secret segs l)).
Proof.
  induction segs as [|part segs IH]; intros l Hinv; cbn [process].
  - exact Hinv.
  - pose proof (loop_body_unbound_inv secret part l Hinv) as Hstep.
    destruct (loop_body secret part l) as [l' [e|]]; [exact Hstep|].
    now apply IH.
Qed.

Lemma parts_inv0 : parts_inv sha256_hexdigest [] locals0.
Proof.
  exists []. split; [reflexivity | split; [constructor | split]].
  - apply PART_SIZE_pos.
  - split; reflexivity.
Qed.

Lemma unbound_inv0 : unbound_inv locals0.
Proof.
  intros _. split; [reflexivity | split; [apply PART_SIZE_pos | reflexivity]].
Qed.

End LoopFacts.

(** ** [compute_checksums] *)

Section ComputeChecksums.

Variable sha256_hexdigest : bytes -> string.
Variable CIPHER_SEGMENT_SIZE : Z.
Variable decrypt_block : bytes -> list bytes -> crypt4gh_error + bytes.

#[local] Abbreviation process := (process sha256_hexdigest decrypt_block).
#[local] Abbreviation segments := (segments CIPHER_SEGMENT_SIZE).
#[local] Abbreviation checksums_of_body :=
  (checksums_of_body sha256_hexdigest CIPHER_SEGMENT_SIZE decrypt_block).
#[local] Abbreviation compute_checksums :=
  (compute_checksums sha256_hexdigest CIPHER_SEGMENT_SIZE decrypt_block).
#[local] Abbreviation decrypts_to := (decrypts_to decrypt_block).

Lemma files_ensure_output_dir w : files (ensure_output_dir w) = files w.
Proof. unfold ensure_output_dir. now destruct (output_dir_exists w). Qed.

Lemma output_dir_ensured w : output_dir_exists (ensure_output_dir w) = true.
Proof. unfold ensure_output_dir. now destruct (output_dir_exists w) eqn:H. Qed.

Lemma path_eqb_refl p : path_eqb p p = true.
Proof. destruct p; apply String.eqb_refl. Qed.

(** The function on a world that holds the input file: the body it works
    on is what the file holds from [offset] on, read after the output file
    was truncated. *)
Lemma compute_checksums_run file_location secret offset w content :
  files w file_location = Some content ->
  0 <= offset ->
  let body :=
    drop offset (if path_eqb file_location encrypted_content then [] else content) in
  compute_checksums file_location secret offset w
  = (snd (checksums_of_body secret body),
     write_file encrypted_content (fst (checksums_of_body secret body))
       (write_file encrypted_content [] (ensure_output_dir w))).
Proof.
  intros Hfile Hoff body.
  unfold compute_checksums, bind, effect, open_rb, open_wb, encrypted_content.
  rewrite files_ensure_output_dir, Hfile, output_dir_ensured.
  destruct (Z.ltb_spec offset 0); [lia|].
  cbn [files write_file]. fold encrypted_content.
  destruct (path_eqb file_location encrypted_content) eqn:Heq.
  - subst body. destruct (checksums_of_body secret (drop offset [])); reflexivity.
  - rewrite files_ensure_output_dir, Hfile. subst body.
    destruct (checksums_of_body secret (drop offset content)); reflexivity.
Qed.

Lemma checksums_of_empty_body secret :
  checksums_of_body secret [] = ([], Ok ([], sha256_hexdigest [])).
Proof.
  unfold checksums_of_body, read.
  destruct (CIPHER_SEGMENT_SIZE <? 0); reflexivity.
Qed.

Lemma len_concat_parts (parts : list bytes) :
  Forall (fun p => len p = PART_SIZE) parts ->
  len (concat parts) = Z.of_nat (length parts) * PART_SIZE.
Proof.
  induction 1 as [|p parts Hp _ IH]; [reflexivity|].
  cbn [concat length]. rewrite len_app, IH, Hp. lia.
Qed.

(** The [i]-th full part is the [i]-th slice of [PART_SIZE] bytes of whatever
    the parts are the beginning of. *)
Lemma nth_error_parts : forall (parts : list bytes) (rest : bytes) i p,
  Forall (fun p => len p = PART_SIZE) parts ->
  nth_error parts i = Some p ->
  p = body_part (concat parts ++ rest) i.
Proof.
  unfold body_part.
  induction parts as [|q parts IH]; intros rest i p Hall Hnth.
  - destruct i; discriminate.
  - inversion Hall as [|? ? Hq Hall']; subst. cbn [concat]. rewrite <- app_assoc.
    destruct i as [|i]; cbn [nth_error] in Hnth.
    + injection Hnth as <-. rewrite Z.mul_0_l, drop_0 by lia.
      rewrite <- Hq. now rewrite take_app_exact.
    + rewrite (IH rest i p Hall' Hnth).
      assert (Hle : len q <= Z.of_nat (S i) * PART_SIZE)
        by (pose proof PART_SIZE_pos; nia).
      rewrite (drop_app_ge _ q _ Hle). do 2 f_equal. lia.
Qed.

(** The locals at the end of the loop, when no segment is longer than a
    part and no decryption fails. *)
Lemma final_locals secret body :
  0 < CIPHER_SEGMENT_SIZE ->
  CIPHER_SEGMENT_SIZE <= PART_SIZE \/ len body < PART_SIZE ->
  snd (process secret (segments body) locals0) = None ->
  parts_inv sha256_hexdigest body (fst (process secret (segments body) locals0)).
Proof.
  intros Hseg Hsize Hok.
  pose proof (process_parts_inv sha256_hexdigest decrypt_block secret
                (segments body) locals0 [] (parts_inv0 sha256_hexdigest)) as H.
  cbn [app] in H. rewrite concat_segments in H by assumption.
  apply H; [|exact Hok].
  eapply Forall_impl; [|apply segments_bounds; exact Hseg].
  cbv beta. intros s. lia.
Qed.

Lemma checksums_of_body_written secret body :
  0 < CIPHER_SEGMENT_SIZE ->
  snd (process secret (segments body) locals0) = None ->
  checksums_of_body secret body
  = (body, finish sha256_hexdigest (fst (process secret (segments body) locals0))).
Proof.
  intros Hseg Hok. rewrite checksums_of_body_process.
  pose proof (process_outfile sha256_hexdigest decrypt_block secret
                (segments body) locals0 Hok) as Hout.
  rewrite concat_segments in Hout by assumption.
  destruct (process secret (segments body) locals0) as [l r].
  cbn [fst snd] in *. subst r. now rewrite Hout.
Qed.

(** C8.  A non-empty body shorter than [PART_SIZE] never reaches the
    return: no part is cut inside the loop, so [file_part] is still unbound
    when the checksum of the last part reads it.  (When a segment does not
    decrypt, the call has failed before, in the loop.) *)
Theorem compute_checksums_short_body_fails file_location secret offset w content :
  0 < CIPHER_SEGMENT_SIZE ->
  files w file_location = Some content ->
  path_eqb file_location encrypted_content = false ->
  0 <= offset ->
  drop offset content <> [] ->
  len (drop offset content) < PART_SIZE ->
  (exists e, fst (compute_checksums file_location secret offset w) = Raise e)
  /\ (forall plaintexts,
        decrypts_to secret (segments (drop offset content)) plaintexts ->
        fst (compute_checksums file_location secret offset w)
        = Raise (UnboundLocalError "file_part")).
Proof.
  intros Hseg Hfile Hpath Hoff Hne Hshort.
  rewrite (compute_checksums_run _ _ _ _ content Hfile Hoff), Hpath. cbn [fst].
  set (body := drop offset content) in *.
  assert (Hunbound :
    snd (process secret (segments body) locals0) = None ->
    snd (checksums_of_body secret body) = Raise (UnboundLocalError "file_part")).
  { intros Hok. rewrite checksums_of_body_written by assumption. cbn [snd].
    destruct (final_locals secret body Hseg (or_intror Hshort) Hok)
      as (parts & Hc & Hall & Hbuf & _ & Hfp).
    assert (Hparts : parts = []).
    { destruct parts as [|p parts]; [reflexivity|].
      apply (f_equal len) in Hc. rewrite len_app, len_concat_parts in Hc by assumption.
      pose proof (len_nonneg (part_buffer (fst (process secret (segments body) locals0)))).
      cbn [length] in Hc. pose proof PART_SIZE_pos. nia. }
    subst parts. cbn [concat app last_part] in *.
    unfold finish. rewrite <- Hc, Hfp.
    destruct (Z.eqb_spec (len body) 0) as [H0|_]; [|reflexivity].
    apply len_nil_iff in H0. contradiction. }
  split.
  - destruct (snd (process secret (segments body) locals0)) as [e|] eqn:Hr.
    + exists e. rewrite checksums_of_body_process.
      destruct (process secret (segments body) locals0) as [l r].
      cbn [snd] in Hr. now subst r.
    + eexists. now apply Hunbound.
  - intros ps Hps. apply Hunbound.
    now destruct (process_decrypts sha256_hexdigest decrypt_block secret _ _ locals0 Hps).
Qed.

(** When every segment decrypts and the body is empty or holds at least
    one part, the loop returns; the total checksum is the SHA-256 of the
    plaintexts, and the output file holds the body. *)
Lemma checksums_of_body_returns secret body plaintexts :
  0 < CIPHER_SEGMENT_SIZE ->
  decrypts_to secret (segments body) plaintexts ->
  body = [] \/ PART_SIZE <= len body ->
  exists part_checksums,
    checksums_of_body secret body
    = (body, Ok (part_checksums, sha256_hexdigest (concat plaintexts))).
Proof.
  intros Hseg Hps Hsize.
  destruct (process_decrypts sha256_hexdigest decrypt_block secret _ _ locals0 Hps)
    as [Hok Htotal].
  rewrite checksums_of_body_written by assumption.
  pose proof (process_unbound_inv sha256_hexdigest decrypt_block secret
                (segments body) locals0 unbound_inv0) as Hinv.
  pose proof (process_outfile sha256_hexdigest decrypt_block secret _ locals0 Hok)
    as Hout.
  rewrite concat_segments in Hout by assumption. cbn [outfile locals0 app] in Hout.
  set (l := fst (process secret (segments body) locals0)) in *.
  unfold finish, hexdigest. rewrite Htotal. cbn [app].
  destruct (Z.eqb_spec (len (part_buffer l)) 0) as [Hz|Hnz]; [eauto|].
  destruct (file_part l) as [fp|] eqn:Hfp; [eauto|].
  exfalso. destruct (Hinv Hfp) as (Hbuf & Hlt & _).
  rewrite Hbuf, Hout in *. destruct Hsize as [Hempty|Hbig]; [|lia].
  rewrite Hempty in Hnz. now apply Hnz.
Qed.

(** C1.  What the code returns for a body of three full parts and a rest
    of [0 < r < PART_SIZE] bytes: four part checksums, of which the last is
    the checksum of the third part once more ([file_part] still holds it),
    not the checksum of the rest. *)
Theorem compute_checksums_last_part_is_stale
    file_location secret offset w content p0 p1 p2 rest plaintexts :
  0 < CIPHER_SEGMENT_SIZE <= PART_SIZE ->
  files w file_location = Some content ->
  path_eqb file_location encrypted_content = false ->
  0 <= offset ->
  drop offset content = p0 ++ p1 ++ p2 ++ rest ->
  len p0 = PART_SIZE -> len p1 = PART_SIZE -> len p2 = PART_SIZE ->
  0 < len rest < PART_SIZE ->
  decrypts_to secret (segments (drop offset content)) plaintexts ->
  fst (compute_checksums file_location secret offset w)
  = Ok ([sha256_hexdigest p0; sha256_hexdigest p1; sha256_hexdigest p2;
         sha256_hexdigest p2],
        sha256_hexdigest (concat plaintexts)).
Proof.
  intros [Hseg Hle] Hfile Hpath Hoff Hbody H0 H1 H2 Hrest Hps.
  rewrite (compute_checksums_run _ _ _ _ content Hfile Hoff), Hpath. cbn [fst].
  set (body := drop offset content) in *.
  destruct (process_decrypts sha256_hexdigest decrypt_block secret _ _ locals0 Hps)
    as [Hok Htotal].
  rewrite checksums_of_body_written by assumption. cbn [snd].
  destruct (final_locals secret body Hseg (or_introl Hle) Hok)
    as (parts & Hc & Hall & Hbuf & Hck & Hfp).
  set (l := fst (process secret (segments body) locals0)) in *.
  pose proof (len_nonneg (part_buffer l)) as Hbuf0.
  pose proof PART_SIZE_pos as Hpos.
  assert (Hlen : len body = Z.of_nat (length parts) * PART_SIZE + len (part_buffer l)).
  { rewrite Hc at 1. now rewrite len_app, len_concat_parts. }
  rewrite Hbody, !len_app, H0, H1, H2 in Hlen.
  assert (Hn : length parts = 3%nat) by nia.
  destruct parts as [|a [|b [|c [|d parts]]]]; try discriminate. clear Hn.
  inversion Hall as [|? ? Ha Hall1]; subst.
  inversion Hall1 as [|? ? Hb Hall2]; subst.
  inversion Hall2 as [|? ? Hc' _]; subst.
  cbn [concat] in Hc. rewrite app_nil_r, <- !app_assoc in Hc. rewrite Hbody in Hc.
  destruct (app_eq_len _ _ _ _ Hc ltac:(lia)) as [-> Hc1].
  destruct (app_eq_len _ _ _ _ Hc1 ltac:(lia)) as [-> Hc2].
  destruct (app_eq_len _ _ _ _ Hc2 ltac:(lia)) as [-> Hc3].
  unfold finish, hexdigest. rewrite Hck, Hfp, Htotal, <- Hc3.
  destruct (Z.eqb_spec (len rest) 0); [lia | reflexivity].
Qed.

(** C4.  The total checksum that [compute_checksums] returns is the SHA-256
    of the decrypted segments of the body, concatenated in order: it is so
    whenever a value is returned, and a value is returned whenever every
    segment decrypts and the body is empty or holds at least one part.
    This holds for every positive segment size, whether it divides
    [PART_SIZE] or not. *)
Theorem total_checksum_is_digest_of_plaintext file_location secret offset w content :
  0 < CIPHER_SEGMENT_SIZE ->
  files w file_location = Some content ->
  path_eqb file_location encrypted_content = false ->
  0 <= offset ->
  (forall part_checksums total,
      fst (compute_checksums file_location secret offset w)
      = Ok (part_checksums, total) ->
      exists plaintexts,
        decrypts_to secret (segments (drop offset content)) plaintexts
        /\ total = sha256_hexdigest (concat plaintexts))
  /\ (forall plaintexts,
        decrypts_to secret (segments (drop offset content)) plaintexts ->
        drop offset content = [] \/ PART_SIZE <= len (drop offset content) ->
        exists part_checksums,
          fst (compute_checksums file_location secret offset w)
          = Ok (part_checksums, sha256_hexdigest (concat plaintexts))).
Proof.
  intros Hseg Hfile Hpath Hoff.
  rewrite (compute_checksums_run _ _ _ _ content Hfile Hoff), Hpath. cbn [fst].
  set (body := drop offset content) in *.
  split.
  - intros pcs total Hret.
    destruct (snd (process secret (segments body) locals0)) as [e|] eqn:Hr.
    + rewrite checksums_of_body_process in Hret.
      destruct (process secret (segments body) locals0) as [l r].
      cbn [snd] in Hr. subst r. discriminate.
    + destruct (process_succeeds sha256_hexdigest decrypt_block secret _ _ Hr)
        as [ps Hps].
      exists ps. split; [exact Hps|].
      destruct (process_decrypts sha256_hexdigest decrypt_block secret _ _ locals0 Hps)
        as [_ Htotal].
      rewrite checksums_of_body_written in Hret by assumption. cbn [snd] in Hret.
      unfold finish, hexdigest in Hret. rewrite Htotal in Hret. cbn [app] in Hret.
      destruct (len (part_buffer _) =? 0) in Hret.
      * now injection Hret as _ <-.
      * destruct (file_part _) in Hret; [now injection Hret as _ <- | discriminate].
  - intros ps Hps Hsize.
    destruct (checksums_of_body_returns secret body ps Hseg Hps Hsize) as [pcs Hret].
    exists pcs. now rewrite Hret.
Qed.

(** C9.  The loop invariant, for segments no longer than a part.  [l] are
    the locals at the start of an iteration, after [n] segments went
    through the loop body.  The part buffer is shorter than [PART_SIZE];
    the checksums emitted so far and the part buffer cover what was read,
    a prefix of the body, without gap or overlap: checksum [i] is the
    SHA-256 of the body bytes in [[i * PART_SIZE, (i + 1) * PART_SIZE)],
    and the part buffer is what was read after the last of these parts. *)
Theorem part_buffer_invariant secret body n l :
  0 < CIPHER_SEGMENT_SIZE <= PART_SIZE ->
  process secret (firstn n (segments body)) locals0 = (l, None) ->
  let consumed := concat (firstn n (segments body)) in
  let emitted := encrypted_part_checksums l in
  len (part_buffer l) < PART_SIZE
  /\ (exists unread, body = consumed ++ unread)
  /\ len consumed = Z.of_nat (length emitted) * PART_SIZE + len (part_buffer l)
  /\ part_buffer l = drop (Z.of_nat (length emitted) * PART_SIZE) consumed
  /\ (forall i, (i < length emitted)%nat ->
         nth_error emitted i = Some (sha256_hexdigest (body_part body i))).
Proof.
  intros [Hseg Hle] Hrun consumed emitted.
  assert (Hbody : body = consumed ++ concat (skipn n (segments body))).
  { subst consumed. rewrite <- concat_app, firstn_skipn.
    symmetry. now apply concat_segments. }
  assert (Hall : Forall (fun s => len s <= PART_SIZE) (firstn n (segments body))).
  { pose proof (segments_bounds CIPHER_SEGMENT_SIZE body Hseg) as Hb.
    rewrite <- (firstn_skipn n (segments body)) in Hb.
    apply Forall_app in Hb. destruct Hb as [Hb _].
    eapply Forall_impl; [|exact Hb]. cbv beta. intros s. lia. }
  pose proof (process_parts_inv sha256_hexdigest decrypt_block secret _ locals0 []
                (parts_inv0 sha256_hexdigest) Hall) as Hinv.
  rewrite Hrun in Hinv. cbn [fst snd app] in Hinv.
  destruct (Hinv eq_refl) as (parts & Hc & Hparts & Hbuf & Hck & _).
  fold consumed in Hc.
  assert (Hn : length emitted = length parts)
    by (subst emitted; now rewrite Hck, length_map).
  split; [exact Hbuf|]. split; [eexists; exact Hbody|].
  rewrite Hn. split; [|split].
  - rewrite Hc at 1. now rewrite len_app, len_concat_parts.
  - rewrite <- (len_concat_parts parts Hparts). rewrite Hc at 1.
    now rewrite drop_app_exact.
  - intros i Hi. subst emitted. rewrite Hck, nth_error_map.
    destruct (nth_error parts i) as [p|] eqn:Hp.
    + cbn [option_map]. do 2 f_equal.
      rewrite Hbody, Hc, <- app_assoc. now apply nth_error_parts.
    + apply nth_error_None in Hp. lia.
Qed.

(** C10.  When the offset is at (or past) the end of the file, the body is
    empty and [compute_checksums] returns no part checksum and the SHA-256
    of the empty byte string; it does not raise. *)
Theorem compute_checksums_empty_body file_location secret offset w content :
  files w file_location = Some content ->
  len content <= offset ->
  fst (compute_checksums file_location secret offset w)
  = Ok ([], sha256_hexdigest []).
Proof.
  intros Hfile Hoff.
  rewrite (compute_checksums_run _ _ _ _ content Hfile)
    by (pose proof (len_nonneg content); lia).
  cbn [fst].
  replace (drop offset _) with (@nil byte).
  - now rewrite checksums_of_empty_body.
  - destruct (path_eqb file_location encrypted_content).
    + reflexivity.
    + symmetry. now apply drop_all.
Qed.

End ComputeChecksums.

(** ** The container format *)

Module Crypt4GHFacts.
Import Crypt4GH.

Lemma Z_of_byte_of_Z n : Z_of_byte (byte_of_Z n) = n mod 256.
Proof.
  unfold Z_of_byte, byte_of_Z.
  pose proof (Z.mod_pos_bound n 256 ltac:(lia)) as Hb.
  destruct (Byte.of_N (Z.to_N (n mod 256))) as [b|] eqn:Hof.
  - apply Byte.to_of_N in Hof. rewrite Hof. lia.
  - apply Byte.of_N_None_iff in Hof. lia.
Qed.

Lemma from_to_le32 n : 0 <= n < 2 ^ 32 -> from_le32 (to_le32 n) = Some n.
Proof.
  intros Hn. unfold from_le32, to_le32. rewrite !Z_of_byte_of_Z. f_equal.
  change (2 ^ 8) with 256. change (2 ^ 16) with (256 * 256).
  change (2 ^ 24) with (256 * 256 * 256).
  change (2 ^ 32) with (256 * 256 * 256 * 256) in Hn.
  rewrite <- !Z.div_div by lia.
  pose proof (Z.div_mod n 256 ltac:(lia)).
  pose proof (Z.div_mod (n / 256) 256 ltac:(lia)).
  pose proof (Z.div_mod (n / 256 / 256) 256 ltac:(lia)).
  assert (n / 256 / 256 / 256 < 256).
  { rewrite !Z.div_div by lia. apply Z.div_lt_upper_bound; lia. }
  assert (0 <= n / 256 / 256 / 256).
  { rewrite !Z.div_div by lia. apply Z.div_pos; lia. }
  rewrite (Z.mod_small (n / 256 / 256 / 256) 256) by lia. lia.
Qed.

Lemma len_to_le32 n : len (to_le32 n) = 4.
Proof. reflexivity. Qed.

Lemma bytes_eqb_refl b : bytes_eqb b b = true.
Proof.
  induction b as [|x b IH]; [reflexivity|]. cbn [bytes_eqb].
  rewrite IH. now rewrite Byte.byte_dec_lb by reflexivity.
Qed.

Lemma read_exact_app (a rest : bytes) n :
  len a = n -> read_exact n (a ++ rest) = Some (a, rest).
Proof.
  intros <-. unfold read_exact. rewrite len_app.
  pose proof (len_nonneg rest).
  destruct (Z.ltb_spec (len a + len rest) (len a)); [lia|].
  now rewrite take_app_exact, drop_app_exact.
Qed.

Lemma take_app_len {A} (a rest : list A) n : len a = n -> take n (a ++ rest) = a.
Proof. intros <-. apply take_app_exact. Qed.

Lemma drop_app_len {A} (a rest : list A) n : len a = n -> drop n (a ++ rest) = rest.
Proof. intros <-. apply drop_app_exact. Qed.

Section Codec.

Variable open_sealed : bytes -> bytes -> option bytes.
Variable make_packet_data_enc : Z -> bytes -> bytes.
Variable parse_payload : bytes -> option record.

#[local] Abbreviation packet_outcome := (packet_outcome open_sealed parse_payload).
#[local] Abbreviation read_packets := (read_packets open_sealed parse_payload).
#[local] Abbreviation decode_header := (decode_header open_sealed parse_payload).
#[local] Abbreviation encode_header seal := (encode_header seal make_packet_data_enc).

(** The packets of a serialized header are read back one by one, and the
    stream is left where the last of them ends. *)
Lemma read_packets_frames recipient_keys : forall packets results rest fuel,
  Forall2 (fun p r => packet_outcome recipient_keys p = Some r) packets results ->
  Forall (fun p => len p < 2 ^ 32) packets ->
  (length packets <= fuel)%nat ->
  read_packets fuel (len packets) recipient_keys (concat (map frame packets) ++ rest)
  = inr (results, rest).
Proof.
  intros packets results rest fuel H. revert fuel.
  induction H as [|p r packets results Hp _ IH]; intros fuel Hsmall Hfuel.
  - destruct fuel; reflexivity.
  - inversion Hsmall as [|? ? Hlen Hsmall']; subst.
    destruct fuel as [|fuel]; [cbn [length] in Hfuel; lia|].
    cbn [Crypt4GH.read_packets].
    assert (Hcount : len (p :: packets) = len packets + 1)
      by (unfold len; cbn [length]; lia).
    destruct (Z.leb_spec (len (p :: packets)) 0) as [Hle|_];
      [pose proof (len_nonneg packets); lia|].
    cbn [map concat]. unfold frame at 1. rewrite <- !app_assoc.
    rewrite (read_exact_app (to_le32 (len p)) _ 4 eq_refl).
    rewrite from_to_le32 by (pose proof (len_nonneg p); lia).
    rewrite (read_exact_app p _ (len p) eq_refl), Hp.
    replace (len (p :: packets) - 1) with (len packets) by lia.
    rewrite IH; [reflexivity | exact Hsmall' | cbn [length] in Hfuel; lia].
Qed.

Lemma frames_length (packets : list bytes) :
  (length packets <= length (concat (map frame packets)))%nat.
Proof.
  induction packets as [|p packets IH]; [apply le_n|].
  cbn [map concat length]. unfold frame at 1. rewrite !length_app.
  change (length (to_le32 (len p))) with 4%nat. lia.
Qed.

(** A serialized header, whatever follows it, decodes to the records of
    its packets, and the position returned is the length of the header:
    the first byte after its last packet. *)
Lemma decode_header_serialized recipient_keys packets results rest :
  Forall2 (fun p r => packet_outcome recipient_keys p = Some r) packets results ->
  Forall (fun p => len p < 2 ^ 32) packets ->
  len packets < 2 ^ 32 ->
  existsb opened results = true ->
  decode_header (header_serialize packets ++ rest) recipient_keys
  = inr (session_keys_of results, edit_list_of results, len (header_serialize packets)).
Proof.
  intros Hout Hsmall Hcount Hopened.
  unfold Crypt4GH.decode_header, header_serialize. rewrite <- !app_assoc.
  rewrite (read_exact_app MAGIC_NUMBER _ 8 eq_refl), bytes_eqb_refl. cbn [negb].
  rewrite (read_exact_app (to_le32 VERSION) _ 4 eq_refl).
  rewrite (from_to_le32 VERSION) by (unfold VERSION; lia).
  rewrite Z.eqb_refl. cbn [negb].
  rewrite (read_exact_app (to_le32 (len packets)) _ 4 eq_refl).
  rewrite from_to_le32 by (pose proof (len_nonneg packets); lia).
  rewrite (read_packets_frames recipient_keys packets results rest _ Hout Hsmall).
  - rewrite Hopened. do 2 f_equal. rewrite !len_app. lia.
  - rewrite length_app. pose proof (frames_length packets). lia.
Qed.

(** Round trip of the envelope codec: the header that [encode_header]
    builds for a session key decodes, with a key that opens its packet, to
    that session key alone, and to the length of the header. *)
Lemma decode_encode_header seal session_key sender_private recipient_public
    recipient_keys rest :
  parse_payload (make_packet_data_enc 0 session_key) = Some (SessionKeyRecord session_key) ->
  len (seal (make_packet_data_enc 0 session_key) sender_private recipient_public) < 2 ^ 32 ->
  open_any open_sealed recipient_keys
    (seal (make_packet_data_enc 0 session_key) sender_private recipient_public)
  = Some (make_packet_data_enc 0 session_key) ->
  decode_header
    (encode_header seal session_key sender_private recipient_public ++ rest)
    recipient_keys
  = inr ([session_key], None,
         len (encode_header seal session_key sender_private recipient_public)).
Proof.
  intros Hk Hsmall Hopen. unfold encode_header, header_encrypt. cbn [flat_map app].
  apply (decode_header_serialized recipient_keys _ [Opened (SessionKeyRecord session_key)]).
  - constructor; [|constructor]. unfold Crypt4GH.packet_outcome.
    now rewrite Hopen, Hk.
  - constructor; [exact Hsmall | constructor].
  - reflexivity.
  - reflexivity.
Qed.

End Codec.

(** *** The stream cipher *)

Section StreamCipher.

Variable segment_decrypt : bytes -> bytes -> option bytes.
Variable CIPHER_SEGMENT_SIZE : Z.

#[local] Abbreviation decrypt_block := (decrypt_block segment_decrypt).
#[local] Abbreviation decrypt_body := (decrypt_body segment_decrypt CIPHER_SEGMENT_SIZE).

Lemma decrypt_block_one_key segment key :
  decrypt_block segment [key]
  = match segment_decrypt key segment with
    | Some plaintext => inr plaintext
    | None => inl AuthenticationFailure
    end.
Proof. cbn. now destruct (segment_decrypt key segment). Qed.

Lemma decrypt_rest_all key : forall segs plaintexts written,
  decrypts_to decrypt_block key segs plaintexts ->
  decrypt_rest segment_decrypt key segs written = (written ++ concat plaintexts, None).
Proof.
  intros segs plaintexts written H. revert written.
  induction H as [|s p segs ps Hp _ IH]; intros written; cbn [decrypt_rest concat].
  - now rewrite app_nil_r.
  - rewrite decrypt_block_one_key in Hp.
    destruct (segment_decrypt key s) as [q|]; [|discriminate].
    injection Hp as ->. now rewrite IH, app_assoc.
Qed.

(** With one candidate key that decrypts every segment, the stream cipher
    writes the plaintexts of the segments, in order. *)
Lemma decrypt_body_one_key key body plaintexts :
  decrypts_to decrypt_block key (segments CIPHER_SEGMENT_SIZE body) plaintexts ->
  decrypt_body body [key] = (concat plaintexts, None).
Proof.
  unfold Crypt4GH.decrypt_body. intros H.
  destruct H as [|s p segs ps Hp Hrest]; [reflexivity|].
  rewrite decrypt_block_one_key in Hp. cbn [select_key].
  destruct (segment_decrypt key s) as [q|]; [|discriminate].
  injection Hp as ->. now apply decrypt_rest_all.
Qed.

End StreamCipher.

End Crypt4GHFacts.

(** ** The two transfers *)

Section Transfers.

Variable sha256_hexdigest : bytes -> string.
Variable CIPHER_SEGMENT_SIZE : Z.
Variable decrypt_block : bytes -> list bytes -> crypt4gh_error + bytes.
Variable parse_private_key : bytes -> option bytes.
Variable parse_public_key : bytes -> option bytes.
Variable deconstruct :
  bytes -> list key_tuple -> crypt4gh_error + (list bytes * option EditList * Z).
Variable make_packet_data_enc : Z -> bytes -> bytes.
Variable header_encrypt : bytes -> list key_tuple -> list bytes.
Variable header_serialize : list bytes -> bytes.
Variable lib_decrypt :
  list key_tuple -> bytes -> option bytes -> bytes * option crypt4gh_error.
Variable path_str : path -> string.
Variable repr : list string -> string.

#[local] Abbreviation compute_checksums :=
  (compute_checksums sha256_hexdigest CIPHER_SEGMENT_SIZE decrypt_block).
#[local] Abbreviation checksums_of_body :=
  (checksums_of_body sha256_hexdigest CIPHER_SEGMENT_SIZE decrypt_block).
#[local] Abbreviation encryption_key_store_upload :=
  (encryption_key_store_upload sha256_hexdigest parse_private_key deconstruct).
#[local] Abbreviation interrogation_room_upload :=
  (interrogation_room_upload sha256_hexdigest CIPHER_SEGMENT_SIZE decrypt_block
     parse_private_key deconstruct repr).
#[local] Abbreviation encryption_key_store_download :=
  (encryption_key_store_download parse_private_key parse_public_key
     make_packet_data_enc header_encrypt header_serialize).
#[local] Abbreviation download :=
  (download sha256_hexdigest parse_private_key parse_public_key
     make_packet_data_enc header_encrypt header_serialize lib_decrypt path_str).
#[local] Abbreviation run :=
  (run sha256_hexdigest CIPHER_SEGMENT_SIZE decrypt_block parse_private_key
     parse_public_key deconstruct make_packet_data_enc header_encrypt
     header_serialize lib_decrypt path_str repr).
#[local] Abbreviation segments := (segments CIPHER_SEGMENT_SIZE).
#[local] Abbreviation decrypts_to := (decrypts_to decrypt_block).

Lemma get_private_key_run w p k :
  holds_key parse_private_key w p k ->
  get_private_key parse_private_key p w = (Ok k, w).
Proof.
  intros (content & Hfile & Hparse).
  unfold get_private_key, bind, open_rb, ret. now rewrite Hfile, Hparse.
Qed.

Lemma get_public_key_run w p k :
  holds_key parse_public_key w p k ->
  get_public_key parse_public_key p w = (Ok k, w).
Proof.
  intros (content & Hfile & Hparse).
  unfold get_public_key, bind, open_rb, ret. now rewrite Hfile, Hparse.
Qed.

Lemma encryption_key_store_upload_run w file_part ghga_sec session_key keys el start :
  holds_key parse_private_key w (INPUT_DIR "ghga.sec") ghga_sec ->
  deconstruct file_part [(0, ghga_sec, None)] = inr (session_key :: keys, el, start) ->
  encryption_key_store_upload file_part w
  = (Ok (session_key, sha256_hexdigest session_key, start),
     set_SESSION_KEY session_key w).
Proof.
  intros Hkey Hdec.
  unfold encryption_key_store_upload, request_cryp4gh_private_key, bind.
  rewrite (get_private_key_run _ _ _ Hkey), Hdec. reflexivity.
Qed.

(** The upload, once the key store has found a session key: what
    [compute_checksums] returns under the first session key, followed by
    the two reports. *)
Lemma interrogation_room_upload_run
    w file_location checksum content ghga_sec session_key keys el offset :
  files w file_location = Some content ->
  holds_key parse_private_key w (INPUT_DIR "ghga.sec") ghga_sec ->
  deconstruct (fst (read PART_SIZE content)) [(0, ghga_sec, None)]
  = inr (session_key :: keys, el, offset) ->
  interrogation_room_upload file_location checksum w
  = match compute_checksums file_location session_key offset
            (set_SESSION_KEY session_key w) with
    | (Ok (part_checksums, total_checksum), w') =>
        (Ok tt,
         print (upload_summary repr part_checksums (sha256_hexdigest session_key))
               (print (upload_verdict checksum total_checksum) w'))
    | (Raise e, w') => (Raise e, w')
    | (Timeout, w') => (Timeout, w')
    end.
Proof.
  intros Hfile Hkey Hdec.
  unfold interrogation_room_upload, bind at 1, open_rb. rewrite Hfile.
  unfold bind at 1. rewrite (encryption_key_store_upload_run _ _ _ _ _ _ _ Hkey Hdec).
  unfold bind at 1.
  destruct (compute_checksums file_location session_key offset _) as [[[pcs total]|e|] w'];
    try reflexivity.
  unfold bind, effect, upload_verdict.
  destruct (String.eqb total checksum); reflexivity.
Qed.

Lemma holds_key_write_output parse w name k out b :
  holds_key parse w (INPUT_DIR name) k ->
  holds_key parse (write_file (OUTPUT_DIR out) b w) (INPUT_DIR name) k.
Proof. intros (content & Hfile & Hparse). now exists content. Qed.

Lemma files_write_same p b w : files (write_file p b w) p = Some b.
Proof. cbn [files write_file]. now rewrite path_eqb_refl. Qed.

(** The envelope that the key store builds for the download. *)
Lemma encryption_key_store_download_run w ghga_secret user_public session_key :
  holds_key parse_private_key w (INPUT_DIR "ghga.sec") ghga_secret ->
  holds_key parse_public_key w (INPUT_DIR "researcher_2.pub") user_public ->
  SESSION_KEY w = Some session_key ->
  encryption_key_store_download w
  = (Ok (header_serialize
           (header_encrypt (make_packet_data_enc 0 session_key)
                           [(0, ghga_secret, Some user_public)])),
     w).
Proof.
  intros Hsec Hpub Hkey. unfold encryption_key_store_download.
  unfold bind at 1. rewrite (get_private_key_run _ _ _ Hsec).
  unfold bind at 1. rewrite (get_public_key_run _ _ _ Hpub).
  unfold bind at 1. now rewrite Hkey.
Qed.

(** The download on a world that holds the keys, the session key and the
    encrypted content: the container written, what [crypt4gh.lib.decrypt]
    makes of it, and the report. *)
Lemma download_run
    w checksum ghga_secret user_public ghga_public user_secret session_key body :
  holds_key parse_private_key w (INPUT_DIR "ghga.sec") ghga_secret ->
  holds_key parse_public_key w (INPUT_DIR "researcher_2.pub") user_public ->
  holds_key parse_public_key w (INPUT_DIR "ghga.pub") ghga_public ->
  holds_key parse_private_key w (INPUT_DIR "researcher_2.sec") user_secret ->
  SESSION_KEY w = Some session_key ->
  files w encrypted_content = Some body ->
  output_dir_exists w = true ->
  let envelope :=
    header_serialize (header_encrypt (make_packet_data_enc 0 session_key)
                                     [(0, ghga_secret, Some user_public)]) in
  let decrypted :=
    lib_decrypt [(0, user_secret, Some ghga_public)] (envelope ++ body) (Some ghga_public) in
  let w' :=
    write_file decrypted_content (fst decrypted)
      (write_file decrypted_content []
         (write_file downloaded_file (envelope ++ body)
            (write_file downloaded_file [] w))) in
  download checksum w
  = match snd decrypted with
    | Some e => (Raise (Crypt4GHError e), w')
    | None =>
        (Ok tt,
         if negb (String.eqb checksum (sha256_hexdigest (fst decrypted)))
         then print_stderr
                (download_mismatch path_str checksum (sha256_hexdigest (fst decrypted))) w'
         else print (download_valid path_str) w')
    end.
Proof.
  intros Hsec Hpub Hgpub Husec Hkey Hbody Hdir envelope decrypted w'.
  unfold download.
  unfold bind at 1.
  rewrite (encryption_key_store_download_run _ _ _ _ Hsec Hpub Hkey). fold envelope.
  unfold bind at 1, open_rb at 1. rewrite Hbody.
  unfold bind at 1, open_wb at 1, downloaded_file at 1. rewrite Hdir.
  fold downloaded_file.
  unfold bind at 1, effect at 1.
  unfold bind at 1.
  rewrite (get_public_key_run _ _ ghga_public)
    by (do 2 apply holds_key_write_output; exact Hgpub).
  unfold bind at 1.
  rewrite (get_private_key_run _ _ user_secret)
    by (do 2 apply holds_key_write_output; exact Husec).
  unfold bind at 1, open_rb at 1. rewrite files_write_same.
  unfold bind at 1, open_wb at 1, decrypted_content at 1.
  cbn [output_dir_exists write_file]. rewrite Hdir. fold decrypted_content.
  fold decrypted.
  destruct decrypted as [written failure] eqn:Hdecr. cbn [fst snd] in *.
  unfold bind at 1, effect at 1.
  destruct failure as [e|]; [reflexivity|].
  unfold bind at 1, open_rb at 1.
  rewrite files_write_same.
  destruct (String.eqb checksum (sha256_hexdigest written)); reflexivity.
Qed.

(** The upload on a body that decrypts under the first session key and is
    empty or holds at least one part: it returns, the output file holds the
    body, and the two reports are printed. *)
Lemma upload_completes
    w file_location checksum content ghga_sec session_key keys el offset plaintexts :
  0 < CIPHER_SEGMENT_SIZE ->
  files w file_location = Some content ->
  path_eqb file_location encrypted_content = false ->
  holds_key parse_private_key w (INPUT_DIR "ghga.sec") ghga_sec ->
  deconstruct (fst (read PART_SIZE content)) [(0, ghga_sec, None)]
  = inr (session_key :: keys, el, offset) ->
  0 <= offset ->
  decrypts_to session_key (segments (drop offset content)) plaintexts ->
  drop offset content = [] \/ PART_SIZE <= len (drop offset content) ->
  exists part_checksums,
    interrogation_room_upload file_location checksum w
    = (Ok tt,
       print (upload_summary repr part_checksums (sha256_hexdigest session_key))
         (print (upload_verdict checksum (sha256_hexdigest (concat plaintexts)))
            (write_file encrypted_content (drop offset content)
               (write_file encrypted_content []
                  (ensure_output_dir (set_SESSION_KEY session_key w)))))).
Proof.
  intros Hseg Hfile Hpath Hkey Hdec Hoff Hps Hsize.
  destruct (checksums_of_body_returns sha256_hexdigest CIPHER_SEGMENT_SIZE decrypt_block
              session_key _ plaintexts Hseg Hps Hsize) as [pcs Hret].
  exists pcs.
  rewrite (interrogation_room_upload_run _ _ _ _ _ _ _ _ _ Hfile Hkey Hdec).
  rewrite (compute_checksums_run sha256_hexdigest CIPHER_SEGMENT_SIZE decrypt_block
             file_location session_key offset (set_SESSION_KEY session_key w)
             content Hfile Hoff).
  rewrite Hpath, Hret. reflexivity.
Qed.

(** C5.  The container that the run hands to the second recipient is the
    new envelope followed by the ciphertext body as the input file holds it
    from the offset of the body to its end: the upload writes these bytes
    to the output file as they are read, and the download copies them
    behind the envelope. *)
Theorem reenvelope_keeps_body
    w content ghga_secret user_public ghga_public user_secret
    session_key keys el offset plaintexts :
  0 < CIPHER_SEGMENT_SIZE ->
  files w (INPUT_DIR "50MiB.fasta.c4gh") = Some content ->
  holds_key parse_private_key w (INPUT_DIR "ghga.sec") ghga_secret ->
  holds_key parse_public_key w (INPUT_DIR "researcher_2.pub") user_public ->
  holds_key parse_public_key w (INPUT_DIR "ghga.pub") ghga_public ->
  holds_key parse_private_key w (INPUT_DIR "researcher_2.sec") user_secret ->
  deconstruct (fst (read PART_SIZE content)) [(0, ghga_secret, None)]
  = inr (session_key :: keys, el, offset) ->
  0 <= offset ->
  decrypts_to session_key (segments (drop offset content)) plaintexts ->
  drop offset content = [] \/ PART_SIZE <= len (drop offset content) ->
  let envelope :=
    header_serialize (header_encrypt (make_packet_data_enc 0 session_key)
                                     [(0, ghga_secret, Some user_public)]) in
  files (snd (run w)) encrypted_content = Some (drop offset content)
  /\ files (snd (run w)) downloaded_file = Some (envelope ++ drop offset content).
Proof.
  intros Hseg Hfile Hsec Hpub Hgpub Husec Hdec Hoff Hps Hsize envelope.
  unfold run, bind.
  destruct (upload_completes w (INPUT_DIR "50MiB.fasta.c4gh")
              "3e67802e821306fe287b85001dbab213a3eb4d2560702c5740741e5111c97841"
              content ghga_secret session_key keys el offset plaintexts
              Hseg Hfile eq_refl Hsec Hdec Hoff Hps Hsize) as [pcs ->].
  match goal with |- context [download _ ?w1] => set (w_up := w1) end.
  assert (Hkeep : forall parse name k,
             holds_key parse w (INPUT_DIR name) k ->
             holds_key parse w_up (INPUT_DIR name) k).
  { intros parse name k (c & Hc & Hp). exists c. split; [|exact Hp].
    subst w_up. cbn [files print write_file set_SESSION_KEY].
    now rewrite files_ensure_output_dir. }
  assert (Hdir : output_dir_exists w_up = true).
  { subst w_up. cbn [output_dir_exists print write_file]. apply output_dir_ensured. }
  rewrite (download_run w_up _ ghga_secret user_public ghga_public user_secret
             session_key (drop offset content)
             (Hkeep _ _ _ Hsec) (Hkeep _ _ _ Hpub) (Hkeep _ _ _ Hgpub) (Hkeep _ _ _ Husec)
             ltac:(subst w_up; cbn [SESSION_KEY print write_file];
                   unfold ensure_output_dir;
                   destruct (output_dir_exists (set_SESSION_KEY session_key w));
                   reflexivity)
             ltac:(subst w_up; reflexivity) Hdir).
  fold envelope.
  destruct (snd (lib_decrypt _ _ _)); [split; reflexivity|].
  destruct (negb _); split; reflexivity.
Qed.

End Transfers.

(** ** The session keys of the header *)

Section FirstKey.

Variable sha256_hexdigest : bytes -> string.
Variable CIPHER_SEGMENT_SIZE : Z.
Variable decrypt_block : bytes -> list bytes -> crypt4gh_error + bytes.
Variable parse_private_key : bytes -> option bytes.
Variable repr : list string -> string.

#[local] Abbreviation interrogation_room_upload :=
  (interrogation_room_upload sha256_hexdigest CIPHER_SEGMENT_SIZE decrypt_block
     parse_private_key).

(** C2, as the code has it.  The key store hands on the first session key
    of the header and no other, and [compute_checksums] decrypts every
    segment with that key alone.  So every upload does what it does for a
    header that carries the first key only; it completes when the first
    key decrypts every segment (and the body is empty or holds a part);
    and when the first key does not authenticate the first body segment it
    raises the decryption error, whatever the other session keys of the
    header are. *)
Theorem upload_uses_first_session_key
    deconstruct w file_location checksum content ghga_sec first_key other_keys
    el offset :
  files w file_location = Some content ->
  holds_key parse_private_key w (INPUT_DIR "ghga.sec") ghga_sec ->
  deconstruct (fst (read PART_SIZE content)) [(0, ghga_sec, None)]
  = inr (first_key :: other_keys, el, offset) ->
  (forall deconstruct',
      deconstruct' (fst (read PART_SIZE content)) [(0, ghga_sec, None)]
      = inr ([first_key], el, offset) ->
      interrogation_room_upload deconstruct repr file_location checksum w
      = interrogation_room_upload deconstruct' repr file_location checksum w)
  /\ (forall plaintexts,
        0 < CIPHER_SEGMENT_SIZE ->
        path_eqb file_location encrypted_content = false ->
        0 <= offset ->
        decrypts_to decrypt_block first_key
          (segments CIPHER_SEGMENT_SIZE (drop offset content)) plaintexts ->
        drop offset content = [] \/ PART_SIZE <= len (drop offset content) ->
        fst (interrogation_room_upload deconstruct repr file_location checksum w)
        = Ok tt)
  /\ (forall e,
        0 < CIPHER_SEGMENT_SIZE ->
        path_eqb file_location encrypted_content = false ->
        0 <= offset ->
        drop offset content <> [] ->
        decrypt_block (take CIPHER_SEGMENT_SIZE (drop offset content)) [first_key]
        = inl e ->
        fst (interrogation_room_upload deconstruct repr file_location checksum w)
        = Raise (Crypt4GHError e)).
Proof.
  intros Hfile Hkey Hdec. split; [|split].
  - intros deconstruct' Hdec'.
    rewrite (interrogation_room_upload_run _ _ _ _ deconstruct _ _ _ _ _ _ _ _ _ _
               Hfile Hkey Hdec).
    now rewrite (interrogation_room_upload_run _ _ _ _ deconstruct' _ _ _ _ _ _ _ _ _ _
                   Hfile Hkey Hdec').
  - intros plaintexts Hseg Hpath Hoff Hps Hsize.
    destruct (upload_completes sha256_hexdigest CIPHER_SEGMENT_SIZE decrypt_block
                parse_private_key deconstruct repr w file_location checksum content
                ghga_sec first_key other_keys el offset plaintexts
                Hseg Hfile Hpath Hkey Hdec Hoff Hps Hsize) as [pcs ->].
    reflexivity.
  - intros e Hseg Hpath Hoff Hne Hfail.
    rewrite (interrogation_room_upload_run _ _ _ _ _ _ _ _ _ _ _ _ _ _ _
               Hfile Hkey Hdec).
    rewrite (compute_checksums_run sha256_hexdigest CIPHER_SEGMENT_SIZE decrypt_block
               file_location first_key offset (set_SESSION_KEY first_key w)
               content Hfile Hoff).
    rewrite Hpath, checksums_of_body_process, segments_cons by assumption.
    cbn [process].
    pose proof (loop_body_failed sha256_hexdigest decrypt_block first_key _ locals0 e Hfail)
      as Hraise.
    destruct (loop_body sha256_hexdigest decrypt_block first_key _ locals0) as [l r].
    cbn [snd] in Hraise. subst r. reflexivity.
Qed.

End FirstKey.

(** ** The transfers over the Crypt4GH model *)

Section Crypt4GHTransfers.
Import Crypt4GH Crypt4GHFacts.

Variable sha256_hexdigest : bytes -> string.
Variable CIPHER_SEGMENT_SIZE : Z.
Variable parse_private_key : bytes -> option bytes.
Variable parse_public_key : bytes -> option bytes.
Variable path_str : path -> string.
Variable seal : bytes -> bytes -> bytes -> bytes.
Variable open_sealed : bytes -> bytes -> option bytes.
Variable make_packet_data_enc : Z -> bytes -> bytes.
Variable parse_payload : bytes -> option record.
Variable segment_decrypt : bytes -> bytes -> option bytes.

#[local] Abbreviation decrypt_block := (decrypt_block segment_decrypt).
#[local] Abbreviation decode_header := (decode_header open_sealed parse_payload).
#[local] Abbreviation encode_header := (encode_header seal make_packet_data_enc).
#[local] Abbreviation lib_decrypt :=
  (lib_decrypt open_sealed segment_decrypt parse_payload CIPHER_SEGMENT_SIZE).
#[local] Abbreviation segments := (segments CIPHER_SEGMENT_SIZE).
#[local] Abbreviation compute_checksums :=
  (compute_checksums sha256_hexdigest CIPHER_SEGMENT_SIZE decrypt_block).
#[local] Abbreviation checksums_of_body :=
  (checksums_of_body sha256_hexdigest CIPHER_SEGMENT_SIZE decrypt_block).
#[local] Abbreviation encryption_key_store_upload :=
  (encryption_key_store_upload sha256_hexdigest parse_private_key decode_header).
#[local] Abbreviation download :=
  (download sha256_hexdigest parse_private_key parse_public_key
     make_packet_data_enc (header_encrypt seal) header_serialize lib_decrypt path_str).

Lemma take_app_le {A} (a b : list A) n :
  len a <= n -> take n (a ++ b) = a ++ take (n - len a) b.
Proof.
  unfold len. intros H. rewrite !take_firstn, firstn_app, firstn_all2 by lia.
  do 2 f_equal. lia.
Qed.

Lemma session_key_opened results key keys :
  session_keys_of results = key :: keys -> existsb opened results = true.
Proof.
  induction results as [|r results IH]; [discriminate|].
  destruct r as [rec|]; [reflexivity|]. exact IH.
Qed.

(** C3.  Round trip of the envelope: the header encoded for the session
    key [K] and the recipient [R] decodes, with the private key of [R], to
    [K] alone.  Consequently the download, which puts the envelope encoded
    for the second recipient in front of the ciphertext body, decrypts with
    that recipient's private key to the plaintexts of the segments under
    [K], the bytes that the upload hashed, and so computes the same
    checksum of the whole file. *)
Theorem header_round_trip_and_reenvelope
    session_key sender_private recipient_public recipient_private rest
    w checksum ghga_secret user_public ghga_public user_secret body plaintexts :
  parse_payload (make_packet_data_enc 0 session_key) = Some (SessionKeyRecord session_key) ->
  len (seal (make_packet_data_enc 0 session_key) sender_private recipient_public) < 2 ^ 32 ->
  open_sealed (seal (make_packet_data_enc 0 session_key) sender_private recipient_public)
              recipient_private
  = Some (make_packet_data_enc 0 session_key) ->
  0 < CIPHER_SEGMENT_SIZE ->
  holds_key parse_private_key w (INPUT_DIR "ghga.sec") ghga_secret ->
  holds_key parse_public_key w (INPUT_DIR "researcher_2.pub") user_public ->
  holds_key parse_public_key w (INPUT_DIR "ghga.pub") ghga_public ->
  holds_key parse_private_key w (INPUT_DIR "researcher_2.sec") user_secret ->
  SESSION_KEY w = Some session_key ->
  files w encrypted_content = Some body ->
  output_dir_exists w = true ->
  len (seal (make_packet_data_enc 0 session_key) ghga_secret user_public) < 2 ^ 32 ->
  open_sealed (seal (make_packet_data_enc 0 session_key) ghga_secret user_public)
              user_secret
  = Some (make_packet_data_enc 0 session_key) ->
  decrypts_to decrypt_block session_key (segments body) plaintexts ->
  decode_header
    (encode_header session_key sender_private recipient_public ++ rest)
    [(0, recipient_private, None)]
  = inr ([session_key], None,
         len (encode_header session_key sender_private recipient_public))
  /\ (fst (download checksum w) = Ok tt
      /\ files (snd (download checksum w)) downloaded_file
         = Some (encode_header session_key ghga_secret user_public ++ body)
      /\ files (snd (download checksum w)) decrypted_content = Some (concat plaintexts)
      /\ (sha256_hexdigest (concat plaintexts) = checksum ->
          stdout (snd (download checksum w)) = stdout w ++ [download_valid path_str]
          /\ stderr (snd (download checksum w)) = stderr w)).
Proof.
  intros Hk Hsmall Hopen Hseg Hsec Hpub Hgpub Husec Hskey Hbody Hdir
         Hsmall2 Hopen2 Hps.
  split.
  - apply decode_encode_header; [exact Hk | exact Hsmall |].
    cbn [open_any]. now rewrite Hopen.
  - rewrite (download_run sha256_hexdigest parse_private_key parse_public_key
               make_packet_data_enc (header_encrypt seal) header_serialize
               lib_decrypt path_str
               w checksum ghga_secret user_public ghga_public user_secret
               session_key body Hsec Hpub Hgpub Husec Hskey Hbody Hdir).
    change (header_serialize
              (header_encrypt seal (make_packet_data_enc 0 session_key)
                 [(0, ghga_secret, Some user_public)]))
      with (encode_header session_key ghga_secret user_public).
    assert (Hdecr :
      lib_decrypt
        [(0, user_secret, Some ghga_public)]
        (encode_header session_key ghga_secret user_public ++ body) (Some ghga_public)
      = (concat plaintexts, None)).
    { unfold lib_decrypt.
      rewrite (decode_encode_header open_sealed make_packet_data_enc parse_payload seal
                 session_key ghga_secret user_public
                 [(0, user_secret, Some ghga_public)] body Hk Hsmall2)
        by (cbn [open_any]; now rewrite Hopen2).
      rewrite drop_app_exact.
      now apply decrypt_body_one_key. }
    rewrite Hdecr. cbn [fst snd].
    destruct (String.eqb_spec checksum (sha256_hexdigest (concat plaintexts)))
      as [Heq|Hneq]; cbn [negb fst snd].
    + split; [reflexivity | split; [reflexivity | split; [reflexivity|]]].
      intros _. split; reflexivity.
    + split; [reflexivity | split; [reflexivity | split; [reflexivity|]]].
      intros Hsame. congruence.
Qed.

End Crypt4GHTransfers.

(** ** Concrete runs *)

Module DemoRuns.
Import Crypt4GH Crypt4GHFacts Demo.

Lemma null_cipher_decrypts key (segs : list bytes) :
  decrypts_to null_cipher key segs segs.
Proof. induction segs; constructor; [reflexivity | assumption]. Qed.

Lemma segment_size_pos : 0 < segment_size.
Proof. reflexivity. Qed.

Lemma segment_size_fits : 0 < segment_size <= PART_SIZE.
Proof. rewrite PART_SIZE_value. unfold segment_size. lia. Qed.

Lemma len_repeat (x : byte) n : 0 <= n -> len (repeat x (Z.to_nat n)) = n.
Proof. intros H. unfold len. rewrite repeat_length. lia. Qed.

Lemma holds_demo_key name key content session_key :
  files (world_with content session_key) (INPUT_DIR name) = Some key ->
  holds_key parse_key (world_with content session_key) (INPUT_DIR name) key.
Proof. intros H. exists key. split; [exact H | reflexivity]. Qed.

(** The offset at the end of a file of three bytes. *)
Lemma compute_checksums_empty_body_witness :
  fst (compute_checksums digest segment_size null_cipher input K1 3
         (world_with (b "abc") None))
  = Ok ([], digest []).
Proof.
  apply (compute_checksums_empty_body digest segment_size null_cipher input K1 3
           (world_with (b "abc") None) (b "abc")).
  - reflexivity.
  - vm_compute. discriminate.
Defined.

(** A body of three bytes. *)
Lemma compute_checksums_short_body_fails_witness :
  (exists e,
      fst (compute_checksums digest segment_size null_cipher input K1 0
             (world_with (b "abc") None)) = Raise e)
  /\ (forall plaintexts,
        decrypts_to null_cipher K1 (segments segment_size (drop 0 (b "abc"))) plaintexts ->
        fst (compute_checksums digest segment_size null_cipher input K1 0
               (world_with (b "abc") None))
        = Raise (UnboundLocalError "file_part")).
Proof.
  apply (compute_checksums_short_body_fails digest segment_size null_cipher input K1 0
           (world_with (b "abc") None) (b "abc")).
  - reflexivity.
  - reflexivity.
  - reflexivity.
  - lia.
  - vm_compute. discriminate.
  - vm_compute. reflexivity.
Defined.

(** Five bytes read two at a time, after two iterations. *)
Lemma part_buffer_invariant_witness :
  let l := mkLocals (b "abcd") (b "abcd") None [] (b "abcd") in
  let consumed := concat (firstn 2 (segments 2 (b "abcde"))) in
  len (part_buffer l) < PART_SIZE
  /\ (exists unread, b "abcde" = consumed ++ unread)
  /\ len consumed
     = Z.of_nat (length (encrypted_part_checksums l)) * PART_SIZE + len (part_buffer l)
  /\ part_buffer l
     = drop (Z.of_nat (length (encrypted_part_checksums l)) * PART_SIZE) consumed
  /\ (forall i, (i < length (encrypted_part_checksums l))%nat ->
         nth_error (encrypted_part_checksums l) i
         = Some (digest (body_part (b "abcde") i))).
Proof.
  apply (part_buffer_invariant digest 2 null_cipher K1 (b "abcde") 2
           (mkLocals (b "abcd") (b "abcd") None [] (b "abcd"))).
  - rewrite PART_SIZE_value. lia.
  - vm_compute. reflexivity.
Defined.

Lemma len_three_parts_and_a_byte : len three_parts_and_a_byte = 3 * PART_SIZE + 1.
Proof.
  pose proof PART_SIZE_pos. unfold three_parts_and_a_byte.
  rewrite !len_app, !len_repeat by lia. change (len [xff]) with 1. lia.
Qed.

(** A body of three parts and one byte, read in segments of crypt4gh's
    size, which does not divide [PART_SIZE]: the call returns, and the
    total checksum it returns is the digest of the segments, decrypted and
    concatenated. *)
Lemma total_checksum_is_digest_of_plaintext_witness :
  let w := world_with three_parts_and_a_byte None in
  let body := drop 0 three_parts_and_a_byte in
  PART_SIZE mod segment_size <> 0
  /\ (exists part_checksums,
        fst (compute_checksums digest segment_size null_cipher input K1 0 w)
        = Ok (part_checksums, digest (concat (segments segment_size body))))
  /\ (forall part_checksums total,
        fst (compute_checksums digest segment_size null_cipher input K1 0 w)
        = Ok (part_checksums, total) ->
        exists plaintexts,
          decrypts_to null_cipher K1 (segments segment_size body) plaintexts
          /\ total = digest (concat plaintexts)).
Proof.
  destruct (total_checksum_is_digest_of_plaintext digest segment_size null_cipher
              input K1 0 (world_with three_parts_and_a_byte None)
              three_parts_and_a_byte)
    as [Hreturned Hreturns].
  - reflexivity.
  - reflexivity.
  - reflexivity.
  - lia.
  - split; [|split].
    + rewrite PART_SIZE_value. vm_compute. discriminate.
    + apply Hreturns.
      * apply null_cipher_decrypts.
      * right. rewrite drop_0 by lia. rewrite len_three_parts_and_a_byte.
        pose proof PART_SIZE_pos. lia.
    + exact Hreturned.
Defined.

(** Three full parts and one more byte: the fourth checksum is the third
    once more, not the checksum of the last byte. *)
Lemma compute_checksums_last_part_is_stale_witness :
  fst (compute_checksums digest segment_size null_cipher input K1 0
         (world_with three_parts_and_a_byte None))
  = Ok ([digest (repeat x00 (Z.to_nat PART_SIZE));
         digest (repeat x01 (Z.to_nat PART_SIZE));
         digest (repeat x02 (Z.to_nat PART_SIZE));
         digest (repeat x02 (Z.to_nat PART_SIZE))],
        digest (concat (segments segment_size (drop 0 three_parts_and_a_byte)))).
Proof.
  pose proof PART_SIZE_pos as Hpos.
  apply (compute_checksums_last_part_is_stale digest segment_size null_cipher input K1 0
           (world_with three_parts_and_a_byte None) three_parts_and_a_byte
           (repeat x00 (Z.to_nat PART_SIZE)) (repeat x01 (Z.to_nat PART_SIZE))
           (repeat x02 (Z.to_nat PART_SIZE)) [xff]).
  - exact segment_size_fits.
  - reflexivity.
  - reflexivity.
  - lia.
  - apply drop_0. lia.
  - apply len_repeat. lia.
  - apply len_repeat. lia.
  - apply len_repeat. lia.
  - change (len [xff]) with 1. rewrite PART_SIZE_value. lia.
  - apply null_cipher_decrypts.
Defined.

(** The header of two session keys: the upload does what it does for a
    header with the first key alone, and fails on the first body segment,
    which only the second key authenticates. *)
Lemma upload_uses_first_session_key_witness :
  (forall deconstruct',
      deconstruct' (fst (read PART_SIZE two_key_file)) [(0, b "G", None)]
      = inr ([K1], None, 106) ->
      interrogation_room_upload digest segment_size (decrypt_block segment_decrypt)
        parse_key (decode_header open_sealed parse_payload) repr input "expected"
        (world_with two_key_file None)
      = interrogation_room_upload digest segment_size (decrypt_block segment_decrypt)
          parse_key deconstruct' repr input "expected"
          (world_with two_key_file None))
  /\ fst (interrogation_room_upload digest segment_size (decrypt_block segment_decrypt)
            parse_key (decode_header open_sealed parse_payload) repr input "expected"
            (world_with two_key_file None))
     = Raise (Crypt4GHError AuthenticationFailure).
Proof.
  destruct (upload_uses_first_session_key digest segment_size
              (decrypt_block segment_decrypt) parse_key repr
              (decode_header open_sealed parse_payload)
              (world_with two_key_file None) input "expected" two_key_file (b "G")
              K1 [K2] None 106)
    as (Hsame & _ & Hfail).
  - reflexivity.
  - apply holds_demo_key. reflexivity.
  - vm_compute. reflexivity.
  - split; [exact Hsame|]. apply Hfail.
    + reflexivity.
    + reflexivity.
    + lia.
    + vm_compute. discriminate.
    + vm_compute. reflexivity.
Defined.

(** C2, as the claim states it, fails.  The header carries two session
    keys; only the second authenticates the first (and only) body segment,
    and the stream cipher of the design decrypts the body with it; the
    upload of the script raises the decryption error. *)
Lemma multi_key_header_upload_fails :
  decode_header open_sealed parse_payload two_key_header [(0, b "G", None)]
  = inr ([K1; K2], None, len two_key_header)
  /\ decrypt_block segment_decrypt (b "2plaintext") [K1] = inl AuthenticationFailure
  /\ decrypt_block segment_decrypt (b "2plaintext") [K2] = inr (b "plaintext")
  /\ decrypt_body segment_decrypt segment_size (b "2plaintext") [K1; K2]
     = (b "plaintext", None)
  /\ fst (interrogation_room_upload digest segment_size (decrypt_block segment_decrypt)
            parse_key (decode_header open_sealed parse_payload) repr input "expected"
            (world_with two_key_file None))
     = Raise (Crypt4GHError AuthenticationFailure).
Proof. vm_compute. repeat split; reflexivity. Qed.

(** The envelope for the recipient [R], and the download of two segments
    that were encrypted under [K1]. *)
Lemma header_round_trip_and_reenvelope_witness :
  let w := world_after_upload (b "1abc1def") in
  let download :=
    download digest parse_key parse_key make_packet_data_enc (header_encrypt seal)
      header_serialize (lib_decrypt open_sealed segment_decrypt parse_payload 4) path_str in
  decode_header open_sealed parse_payload (encode_header seal make_packet_data_enc K1 (b "S") (b "R") ++ b "tail")
    [(0, b "R", None)]
  = inr ([K1], None, len (encode_header seal make_packet_data_enc K1 (b "S") (b "R")))
  /\ (fst (download "abcdef"%string w) = Ok tt
      /\ files (snd (download "abcdef"%string w)) downloaded_file
         = Some (encode_header seal make_packet_data_enc K1 (b "G") (b "R") ++ b "1abc1def")
      /\ files (snd (download "abcdef"%string w)) decrypted_content
         = Some (concat [b "abc"; b "def"])
      /\ (digest (concat [b "abc"; b "def"]) = "abcdef"%string ->
          stdout (snd (download "abcdef"%string w)) = stdout w ++ [download_valid path_str]
          /\ stderr (snd (download "abcdef"%string w)) = stderr w)).
Proof.
  apply (header_round_trip_and_reenvelope digest 4 parse_key parse_key path_str seal
           open_sealed make_packet_data_enc parse_payload segment_decrypt K1 (b "S") (b "R") (b "R") (b "tail")
           (world_after_upload (b "1abc1def")) "abcdef" (b "G") (b "R") (b "G") (b "R")
           (b "1abc1def") [b "abc"; b "def"]).
  - reflexivity.
  - reflexivity.
  - reflexivity.
  - reflexivity.
  - exists (b "G"). split; reflexivity.
  - exists (b "R"). split; reflexivity.
  - exists (b "G"). split; reflexivity.
  - exists (b "R"). split; reflexivity.
  - reflexivity.
  - reflexivity.
  - reflexivity.
  - reflexivity.
  - reflexivity.
  - repeat constructor.
Defined.

(** A run on a body of one full part, with a key store that returns [K1]
    and the offset 0. *)
Lemma reenvelope_keeps_body_witness :
  let run :=
    run digest segment_size null_cipher parse_key parse_key deconstruct_K1
      make_packet_data_enc (header_encrypt seal) header_serialize
      (lib_decrypt open_sealed segment_decrypt parse_payload segment_size) path_str repr in
  let w := world_with one_part None in
  files (snd (run w)) encrypted_content = Some (drop 0 one_part)
  /\ files (snd (run w)) downloaded_file
     = Some (header_serialize
               (header_encrypt seal (make_packet_data_enc 0 K1) [(0, b "G", Some (b "R"))])
             ++ drop 0 one_part).
Proof.
  apply (reenvelope_keeps_body digest segment_size null_cipher parse_key parse_key
           deconstruct_K1 make_packet_data_enc (header_encrypt seal) header_serialize
           (lib_decrypt open_sealed segment_decrypt parse_payload segment_size) path_str repr
           (world_with one_part None) one_part (b "G") (b "R") (b "G") (b "R")
           K1 [] None 0 (segments segment_size (drop 0 one_part))).
  - reflexivity.
  - reflexivity.
  - apply holds_demo_key. reflexivity.
  - apply holds_demo_key. reflexivity.
  - apply holds_demo_key. reflexivity.
  - apply holds_demo_key. reflexivity.
  - reflexivity.
  - lia.
  - apply null_cipher_decrypts.
  - right. rewrite drop_0 by lia. unfold one_part.
    pose proof PART_SIZE_pos. rewrite len_repeat; lia.
Defined.

End DemoRuns.

(** * Further properties of the script *)

(** ** [compute_checksums]: errors, frame, repetition *)

Section MoreChecksums.

Variable sha256_hexdigest : bytes -> string.
Variable CIPHER_SEGMENT_SIZE : Z.
Variable decrypt_block : bytes -> list bytes -> crypt4gh_error + bytes.

#[local] Abbreviation process := (process sha256_hexdigest decrypt_block).
#[local] Abbreviation segments := (segments CIPHER_SEGMENT_SIZE).
#[local] Abbreviation checksums_of_body :=
  (checksums_of_body sha256_hexdigest CIPHER_SEGMENT_SIZE decrypt_block).
#[local] Abbreviation compute_checksums :=
  (compute_checksums sha256_hexdigest CIPHER_SEGMENT_SIZE decrypt_block).
#[local] Abbreviation decrypts_to := (decrypts_to decrypt_block).

Lemma finish_not_timeout l : finish sha256_hexdigest l <> Timeout.
Proof.
  unfold finish. destruct (len (part_buffer l) =? 0); [discriminate|].
  destruct (file_part l); discriminate.
Qed.

Lemma checksums_of_body_not_timeout secret body :
  snd (checksums_of_body secret body) <> Timeout.
Proof.
  rewrite checksums_of_body_process.
  destruct (process secret (segments body) locals0) as [l [e|]]; cbn [snd];
    [discriminate | apply finish_not_timeout].
Qed.

(** The call on a world without the input file. *)
Lemma compute_checksums_missing file_location secret offset w :
  files w file_location = None ->
  compute_checksums file_location secret offset w
  = (Raise FileNotFoundError, ensure_output_dir w).
Proof.
  intros Hfile. unfold compute_checksums, bind, effect, open_rb.
  now rewrite files_ensure_output_dir, Hfile.
Qed.

(** The call with a negative offset: the seek raises once the output file
    has been opened, and so emptied. *)
Lemma compute_checksums_negative file_location secret offset w content :
  files w file_location = Some content ->
  offset < 0 ->
  compute_checksums file_location secret offset w
  = (Raise OSError, write_file encrypted_content [] (ensure_output_dir w)).
Proof.
  intros Hfile Hoff. unfold compute_checksums, bind, effect, open_rb, open_wb,
    encrypted_content, raise.
  rewrite files_ensure_output_dir, Hfile, output_dir_ensured.
  destruct (Z.ltb_spec offset 0); [reflexivity | lia].
Qed.

(** X1.  [compute_checksums] changes nothing of the world but the output
    directory and the file [encrypted_content] in it: every other file,
    both output streams and the module-level session key are as before,
    whatever the outcome of the call. *)
Theorem compute_checksums_frame file_location secret offset w :
  (forall q, path_eqb q encrypted_content = false ->
             files (snd (compute_checksums file_location secret offset w)) q = files w q)
  /\ stdout (snd (compute_checksums file_location secret offset w)) = stdout w
  /\ stderr (snd (compute_checksums file_location secret offset w)) = stderr w
  /\ SESSION_KEY (snd (compute_checksums file_location secret offset w)) = SESSION_KEY w.
Proof.
  assert (Hens : forall q, files (ensure_output_dir w) q = files w q)
    by (intro q; now rewrite files_ensure_output_dir).
  assert (Hrest : stdout (ensure_output_dir w) = stdout w
                  /\ stderr (ensure_output_dir w) = stderr w
                  /\ SESSION_KEY (ensure_output_dir w) = SESSION_KEY w)
    by (unfold ensure_output_dir; destruct (output_dir_exists w); repeat split).
  destruct (files w file_location) as [content|] eqn:Hfile.
  - destruct (Z.ltb_spec offset 0) as [Hneg|Hpos].
    + rewrite (compute_checksums_negative _ _ _ _ content Hfile Hneg). cbn [snd].
      split; [|exact Hrest].
      intros q Hq. cbn [files write_file]. rewrite Hq. apply Hens.
    + rewrite (compute_checksums_run sha256_hexdigest CIPHER_SEGMENT_SIZE decrypt_block
                 _ _ _ _ content Hfile Hpos). cbn [snd].
      split; [|exact Hrest].
      intros q Hq. cbn [files write_file]. rewrite Hq. apply Hens.
  - rewrite (compute_checksums_missing _ _ _ _ Hfile). cbn [snd].
    split; [intros q _; apply Hens | exact Hrest].
Qed.

(** X2.  The read loop ends on every file, for every segment size, offset
    and secret: each pass through the loop takes at least one byte from
    what is left of the source, so the call returns or raises. *)
Theorem compute_checksums_terminates file_location secret offset w :
  fst (compute_checksums file_location secret offset w) <> Timeout.
Proof.
  destruct (files w file_location) as [content|] eqn:Hfile.
  - destruct (Z.ltb_spec offset 0) as [Hneg|Hpos].
    + rewrite (compute_checksums_negative _ _ _ _ content Hfile Hneg). discriminate.
    + rewrite (compute_checksums_run sha256_hexdigest CIPHER_SEGMENT_SIZE decrypt_block
                 _ _ _ _ content Hfile Hpos). cbn [fst].
      apply checksums_of_body_not_timeout.
  - rewrite (compute_checksums_missing _ _ _ _ Hfile). discriminate.
Qed.

(** X3.  Without the input file the call raises [FileNotFoundError] before
    the output file is opened: no file is created or changed. *)
Theorem compute_checksums_missing_input file_location secret offset w :
  files w file_location = None ->
  fst (compute_checksums file_location secret offset w) = Raise FileNotFoundError
  /\ forall q, files (snd (compute_checksums file_location secret offset w)) q = files w q.
Proof.
  intros Hfile. rewrite (compute_checksums_missing _ _ _ _ Hfile). cbn [fst snd].
  split; [reflexivity|]. intro q. now rewrite files_ensure_output_dir.
Qed.

(** X4.  With a negative offset the seek raises [OSError]; the output file
    was opened for writing before, so what [encrypted_content] held is
    lost: it is left empty. *)
Theorem compute_checksums_negative_offset file_location secret offset w content :
  files w file_location = Some content ->
  offset < 0 ->
  fst (compute_checksums file_location secret offset w) = Raise OSError
  /\ files (snd (compute_checksums file_location secret offset w)) encrypted_content
     = Some [].
Proof.
  intros Hfile Hneg. rewrite (compute_checksums_negative _ _ _ _ content Hfile Hneg).
  cbn [fst snd]. split; [reflexivity | apply files_write_same].
Qed.

(** X5.  Given its own output file as input, the call opens it for writing
    before the first read: the content is lost, the loop finds nothing to
    read, and the call returns no part checksum and the SHA-256 of the
    empty byte string. *)
Theorem compute_checksums_on_its_own_output secret offset w content :
  files w encrypted_content = Some content ->
  0 <= offset ->
  fst (compute_checksums encrypted_content secret offset w)
  = Ok ([], sha256_hexdigest [])
  /\ files (snd (compute_checksums encrypted_content secret offset w)) encrypted_content
     = Some [].
Proof.
  intros Hfile Hoff.
  rewrite (compute_checksums_run sha256_hexdigest CIPHER_SEGMENT_SIZE decrypt_block
             _ _ _ _ content Hfile Hoff).
  rewrite path_eqb_refl.
  replace (drop offset (@nil byte)) with (@nil byte) by (now destruct offset).
  rewrite checksums_of_empty_body. cbn [fst snd].
  split; [reflexivity | apply files_write_same].
Qed.

(** X6.  When a segment does not decrypt, the call raises the decryption
    error at that segment: the segments behind it are not read, and the
    output file holds the body up to and including the segment that
    failed, which was written before its decryption. *)
Theorem compute_checksums_stops_at_failing_segment
    file_location secret offset w content before failing behind plaintexts e :
  0 < CIPHER_SEGMENT_SIZE ->
  files w file_location = Some content ->
  path_eqb file_location encrypted_content = false ->
  0 <= offset ->
  segments (drop offset content) = before ++ failing :: behind ->
  decrypts_to secret before plaintexts ->
  decrypt_block failing [secret] = inl e ->
  fst (compute_checksums file_location secret offset w) = Raise (Crypt4GHError e)
  /\ files (snd (compute_checksums file_location secret offset w)) encrypted_content
     = Some (concat before ++ failing).
Proof.
  intros Hseg Hfile Hpath Hoff Hsegs Hps Hfail.
  rewrite (compute_checksums_run sha256_hexdigest CIPHER_SEGMENT_SIZE decrypt_block
             _ _ _ _ content Hfile Hoff).
  rewrite Hpath, checksums_of_body_process, Hsegs, process_app.
  destruct (process_decrypts sha256_hexdigest decrypt_block secret _ _ locals0 Hps)
    as [Hok _].
  pose proof (process_outfile sha256_hexdigest decrypt_block secret before locals0 Hok)
    as Hout.
  destruct (process secret before locals0) as [l r]. cbn [fst snd] in *. subst r.
  cbn [process].
  pose proof (loop_body_failed sha256_hexdigest decrypt_block secret failing l e Hfail)
    as Hraise.
  pose proof (loop_body_outfile sha256_hexdigest decrypt_block secret failing l) as Hw.
  destruct (loop_body sha256_hexdigest decrypt_block secret failing l) as [l' r].
  cbn [fst snd] in *. subst r. cbn [fst snd].
  split; [reflexivity|]. now rewrite files_write_same, Hw, Hout.
Qed.

(** A list is cut into full parts and a shorter rest in one way only. *)
Lemma parts_unique : forall (parts parts' : list bytes) (rest rest' : bytes),
  concat parts ++ rest = concat parts' ++ rest' ->
  Forall (fun p => len p = PART_SIZE) parts ->
  Forall (fun p => len p = PART_SIZE) parts' ->
  len rest < PART_SIZE -> len rest' < PART_SIZE ->
  parts = parts' /\ rest = rest'.
Proof.
  pose proof PART_SIZE_pos as Hpos.
  induction parts as [|p parts IH]; intros parts' rest rest' Heq Hall Hall' Hr Hr'.
  - destruct parts' as [|q parts']; [now split|]. exfalso.
    inversion Hall' as [|? ? Hq _]; subst. cbn [concat app] in Heq.
    apply (f_equal len) in Heq. rewrite <- app_assoc, !len_app in Heq.
    pose proof (len_nonneg (concat parts')). pose proof (len_nonneg rest'). lia.
  - inversion Hall as [|? ? Hp Hall1]; subst.
    destruct parts' as [|q parts'].
    + exfalso. cbn [concat app] in Heq.
      apply (f_equal len) in Heq. rewrite <- app_assoc, !len_app in Heq.
      pose proof (len_nonneg (concat parts)). pose proof (len_nonneg rest). lia.
    + inversion Hall' as [|? ? Hq Hall1']; subst.
      cbn [concat] in Heq. rewrite <- !app_assoc in Heq.
      destruct (app_eq_len _ _ _ _ Heq ltac:(lia)) as [-> Heq'].
      destruct (IH parts' rest rest' Heq' Hall1 Hall1' Hr Hr') as [-> ->].
      now split.
Qed.

(** X7.  The part checksums of a body of one or more full parts and a
    shorter rest, for segments no longer than a part: one checksum for
    each full part, in order, each the SHA-256 of that part; and, when the
    rest is not empty, one more checksum, which is that of the last full
    part again.  For a body that is a whole number of parts the list is
    the checksums of its parts. *)
Theorem compute_checksums_part_checksums
    file_location secret offset w content parts rest plaintexts :
  0 < CIPHER_SEGMENT_SIZE <= PART_SIZE ->
  files w file_location = Some content ->
  path_eqb file_location encrypted_content = false ->
  0 <= offset ->
  drop offset content = concat parts ++ rest ->
  Forall (fun p => len p = PART_SIZE) parts ->
  parts <> [] ->
  len rest < PART_SIZE ->
  decrypts_to secret (segments (drop offset content)) plaintexts ->
  fst (compute_checksums file_location secret offset w)
  = Ok (map sha256_hexdigest parts
          ++ match rest with
             | [] => []
             | _ :: _ => [sha256_hexdigest (last parts [])]
             end,
        sha256_hexdigest (concat plaintexts)).
Proof.
  intros [Hseg Hle] Hfile Hpath Hoff Hbody Hall Hne Hrest Hps.
  rewrite (compute_checksums_run sha256_hexdigest CIPHER_SEGMENT_SIZE decrypt_block
             _ _ _ _ content Hfile Hoff), Hpath. cbn [fst].
  set (body := drop offset content) in *.
  destruct (process_decrypts sha256_hexdigest decrypt_block secret _ _ locals0 Hps)
    as [Hok Htotal].
  rewrite (checksums_of_body_written sha256_hexdigest CIPHER_SEGMENT_SIZE decrypt_block
             secret body Hseg Hok). cbn [snd].
  destruct (final_locals sha256_hexdigest CIPHER_SEGMENT_SIZE decrypt_block secret body
              Hseg (or_introl Hle) Hok) as (parts' & Hc & Hall' & Hbuf & Hck & Hfp).
  set (l := fst (process secret (segments body) locals0)) in *.
  rewrite Hbody in Hc.
  destruct (parts_unique parts parts' rest (part_buffer l) Hc Hall Hall' Hrest Hbuf)
    as [<- Hrest'].
  unfold finish, hexdigest. rewrite Hck, Hfp, Htotal, <- Hrest'. cbn [app].
  destruct rest as [|x rest].
  - cbn. now rewrite app_nil_r.
  - change (len (x :: rest) =? 0) with (Z.pos (Pos.of_succ_nat (length rest)) =? 0).
    cbn [Z.eqb]. destruct parts as [|p parts]; [congruence | reflexivity].
Qed.

Lemma segments_empty body :
  0 < CIPHER_SEGMENT_SIZE -> segments body = [] -> body = [].
Proof.
  intros Hseg Hnil. rewrite <- (concat_segments CIPHER_SEGMENT_SIZE body Hseg).
  now rewrite Hnil.
Qed.

(** X8.  The reads of the loop cut the body, from the offset on, into the
    segments that crypt4gh expects: they make up the body, in order; every
    segment but the last holds exactly [CIPHER_SEGMENT_SIZE] bytes; the
    last is not empty and not longer.  (These reads are what the loop
    hands to [decrypt_block], lemma [checksums_of_body_process].) *)
Theorem segments_aligned body :
  0 < CIPHER_SEGMENT_SIZE ->
  concat (segments body) = body
  /\ Forall (fun s => len s = CIPHER_SEGMENT_SIZE) (removelast (segments body))
  /\ Forall (fun s => 0 < len s <= CIPHER_SEGMENT_SIZE) (segments body).
Proof.
  intros Hseg. split; [now apply concat_segments|]. split.
  - revert body. refine (segments_induction _ _ Hseg _ _); [constructor|].
    intros body Hne IH. rewrite segments_cons by assumption.
    destruct (segments (drop CIPHER_SEGMENT_SIZE body)) as [|s segs] eqn:Hs.
    + constructor.
    + change (removelast (?x :: s :: segs)) with (x :: removelast (s :: segs)).
      constructor; [|exact IH].
      assert (Hd : drop CIPHER_SEGMENT_SIZE body <> []).
      { intros Hnil. rewrite Hnil, segments_nil in Hs. discriminate. }
      rewrite len_take by lia.
      assert (len (drop CIPHER_SEGMENT_SIZE body) <> 0)
        by (intros H0; apply len_nil_iff in H0; contradiction).
      rewrite len_drop in * by lia. lia.
  - eapply Forall_impl; [|apply (segments_bounds CIPHER_SEGMENT_SIZE body Hseg)].
    cbv beta. intros s. lia.
Qed.

(** X9.  A second call on the same input does what the first did: it
    returns the same value and leaves every file as the first call left
    it.  (The call reads the input and keeps no state of its own.) *)
Theorem compute_checksums_twice file_location secret offset w content :
  files w file_location = Some content ->
  path_eqb file_location encrypted_content = false ->
  0 <= offset ->
  let w1 := snd (compute_checksums file_location secret offset w) in
  fst (compute_checksums file_location secret offset w1)
  = fst (compute_checksums file_location secret offset w)
  /\ forall q, files (snd (compute_checksums file_location secret offset w1)) q
               = files w1 q.
Proof.
  intros Hfile Hpath Hoff w1. subst w1.
  rewrite (compute_checksums_run sha256_hexdigest CIPHER_SEGMENT_SIZE decrypt_block
             _ _ _ w content Hfile Hoff), Hpath. cbn [fst snd].
  set (r := checksums_of_body secret (drop offset content)).
  set (w1 := write_file encrypted_content (fst r) _).
  assert (Hfile1 : files w1 file_location = Some content).
  { subst w1. cbn [files write_file]. now rewrite Hpath, files_ensure_output_dir. }
  rewrite (compute_checksums_run sha256_hexdigest CIPHER_SEGMENT_SIZE decrypt_block
             _ _ _ w1 content Hfile1 Hoff), Hpath. fold r. cbn [fst snd].
  split; [reflexivity|].
  intros q. cbn [files write_file].
  destruct (path_eqb q encrypted_content) eqn:Hq.
  - subst w1. cbn [files write_file]. now rewrite Hq.
  - now rewrite files_ensure_output_dir.
Qed.

End MoreChecksums.

(** ** The transfers: failures, reports, repetition *)

Section MoreTransfers.

Variable sha256_hexdigest : bytes -> string.
Variable CIPHER_SEGMENT_SIZE : Z.
Variable decrypt_block : bytes -> list bytes -> crypt4gh_error + bytes.
Variable parse_private_key : bytes -> option bytes.
Variable parse_public_key : bytes -> option bytes.
Variable deconstruct :
  bytes -> list key_tuple -> crypt4gh_error + (list bytes * option EditList * Z).
Variable make_packet_data_enc : Z -> bytes -> bytes.
Variable header_encrypt : bytes -> list key_tuple -> list bytes.
Variable header_serialize : list bytes -> bytes.
Variable lib_decrypt :
  list key_tuple -> bytes -> option bytes -> bytes * option crypt4gh_error.
Variable path_str : path -> string.
Variable repr : list string -> string.

#[local] Abbreviation compute_checksums :=
  (compute_checksums sha256_hexdigest CIPHER_SEGMENT_SIZE decrypt_block).
#[local] Abbreviation checksums_of_body :=
  (checksums_of_body sha256_hexdigest CIPHER_SEGMENT_SIZE decrypt_block).
#[local] Abbreviation process := (process sha256_hexdigest decrypt_block).
#[local] Abbreviation encryption_key_store_upload :=
  (encryption_key_store_upload sha256_hexdigest parse_private_key deconstruct).
#[local] Abbreviation interrogation_room_upload :=
  (interrogation_room_upload sha256_hexdigest CIPHER_SEGMENT_SIZE decrypt_block
     parse_private_key deconstruct repr).
#[local] Abbreviation download :=
  (download sha256_hexdigest parse_private_key parse_public_key
     make_packet_data_enc header_encrypt header_serialize lib_decrypt path_str).
#[local] Abbreviation run :=
  (run sha256_hexdigest CIPHER_SEGMENT_SIZE decrypt_block parse_private_key
     parse_public_key deconstruct make_packet_data_enc header_encrypt
     header_serialize lib_decrypt path_str repr).
#[local] Abbreviation segments := (segments CIPHER_SEGMENT_SIZE).
#[local] Abbreviation decrypts_to := (decrypts_to decrypt_block).

(** X10.  An upload that fails in the key store leaves no trace.  When the
    key file is missing, when the header cannot be decoded, or when it
    holds no session key ([session_keys[0]] of an empty list), the upload
    raises that exception and the world is as before: no output file,
    nothing printed, the module-level session key untouched. *)
Theorem upload_fails_without_trace w file_location checksum content :
  files w file_location = Some content ->
  (files w (INPUT_DIR "ghga.sec") = None ->
   interrogation_room_upload file_location checksum w = (Raise FileNotFoundError, w))
  /\ (forall ghga_sec e,
        holds_key parse_private_key w (INPUT_DIR "ghga.sec") ghga_sec ->
        deconstruct (fst (read PART_SIZE content)) [(0, ghga_sec, None)] = inl e ->
        interrogation_room_upload file_location checksum w = (Raise (Crypt4GHError e), w))
  /\ (forall ghga_sec el start,
        holds_key parse_private_key w (INPUT_DIR "ghga.sec") ghga_sec ->
        deconstruct (fst (read PART_SIZE content)) [(0, ghga_sec, None)]
        = inr ([], el, start) ->
        interrogation_room_upload file_location checksum w = (Raise IndexError, w)).
Proof.
  intros Hfile.
  assert (Hup : forall e,
    encryption_key_store_upload (fst (read PART_SIZE content)) w = (Raise e, w) ->
    interrogation_room_upload file_location checksum w = (Raise e, w)).
  { intros e He. unfold interrogation_room_upload, bind at 1, open_rb at 1.
    rewrite Hfile. unfold bind at 1. now rewrite He. }
  split; [|split].
  - intros Hkey. apply Hup.
    unfold encryption_key_store_upload, request_cryp4gh_private_key, get_private_key,
      bind, open_rb.
    now rewrite Hkey.
  - intros ghga_sec e Hkey Hdec. apply Hup.
    unfold encryption_key_store_upload, request_cryp4gh_private_key, bind at 1.
    now rewrite (get_private_key_run _ _ _ _ Hkey), Hdec.
  - intros ghga_sec el start Hkey Hdec. apply Hup.
    unfold encryption_key_store_upload, request_cryp4gh_private_key, bind at 1.
    now rewrite (get_private_key_run _ _ _ _ Hkey), Hdec.
Qed.

(** The loop on a non-empty body shorter than a part, when every segment
    decrypts. *)
Lemma checksums_of_short_body secret body plaintexts :
  0 < CIPHER_SEGMENT_SIZE ->
  body <> [] ->
  len body < PART_SIZE ->
  decrypts_to secret (segments body) plaintexts ->
  checksums_of_body secret body = (body, Raise (UnboundLocalError "file_part")).
Proof.
  intros Hseg Hne Hshort Hps.
  destruct (process_decrypts sha256_hexdigest decrypt_block secret _ _ locals0 Hps)
    as [Hok _].
  rewrite (checksums_of_body_written sha256_hexdigest CIPHER_SEGMENT_SIZE decrypt_block
             secret body Hseg Hok).
  destruct (final_locals sha256_hexdigest CIPHER_SEGMENT_SIZE decrypt_block secret body
              Hseg (or_intror Hshort) Hok) as (parts & Hc & Hall & Hbuf & _ & Hfp).
  set (l := fst (process secret (segments body) locals0)) in *.
  destruct (parts_unique [] parts body (part_buffer l) Hc (Forall_nil _) Hall Hshort Hbuf)
    as [<- Hbody].
  unfold finish. rewrite <- Hbody, Hfp. cbn [last_part].
  destruct (Z.eqb_spec (len body) 0) as [H0|_]; [|reflexivity].
  apply len_nil_iff in H0. contradiction.
Qed.

(** X11.  A run on a file whose body is not empty and shorter than
    [PART_SIZE] ends in the upload, with the [UnboundLocalError] on
    [file_part]: nothing is printed and the download does not take place,
    but the session key is set and the whole body has been written to
    [encrypted_content]. *)
Theorem run_on_short_body
    w content ghga_secret session_key keys el offset plaintexts :
  0 < CIPHER_SEGMENT_SIZE ->
  files w (INPUT_DIR "50MiB.fasta.c4gh") = Some content ->
  holds_key parse_private_key w (INPUT_DIR "ghga.sec") ghga_secret ->
  deconstruct (fst (read PART_SIZE content)) [(0, ghga_secret, None)]
  = inr (session_key :: keys, el, offset) ->
  0 <= offset ->
  drop offset content <> [] ->
  len (drop offset content) < PART_SIZE ->
  decrypts_to session_key (segments (drop offset content)) plaintexts ->
  fst (run w) = Raise (UnboundLocalError "file_part")
  /\ stdout (snd (run w)) = stdout w
  /\ stderr (snd (run w)) = stderr w
  /\ SESSION_KEY (snd (run w)) = Some session_key
  /\ files (snd (run w)) encrypted_content = Some (drop offset content)
  /\ files (snd (run w)) downloaded_file = files w downloaded_file.
Proof.
  intros Hseg Hfile Hkey Hdec Hoff Hne Hshort Hps.
  unfold run, bind.
  rewrite (interrogation_room_upload_run _ _ _ _ _ _ _ _ _ _ _ _ _ _ _ Hfile Hkey Hdec).
  rewrite (compute_checksums_run sha256_hexdigest CIPHER_SEGMENT_SIZE decrypt_block
             (INPUT_DIR "50MiB.fasta.c4gh") session_key offset
             (set_SESSION_KEY session_key w) content Hfile Hoff).
  change (path_eqb (INPUT_DIR "50MiB.fasta.c4gh") encrypted_content) with false.
  cbv iota.
  rewrite (checksums_of_short_body _ _ plaintexts Hseg Hne Hshort Hps).
  cbn [fst snd]. split; [reflexivity|].
  unfold ensure_output_dir.
  destruct (output_dir_exists (set_SESSION_KEY session_key w)); repeat split.
Qed.


(** X13.  When crypt4gh fails on the container, the download raises that
    error and reports nothing: no checksum is computed or printed.  The
    container stays in [downloaded_file], and [decrypted_content] holds
    what crypt4gh wrote before it failed. *)
Theorem download_stops_at_decryption_failure
    w checksum ghga_secret user_public ghga_public user_secret session_key body
    written e :
  holds_key parse_private_key w (INPUT_DIR "ghga.sec") ghga_secret ->
  holds_key parse_public_key w (INPUT_DIR "researcher_2.pub") user_public ->
  holds_key parse_public_key w (INPUT_DIR "ghga.pub") ghga_public ->
  holds_key parse_private_key w (INPUT_DIR "researcher_2.sec") user_secret ->
  SESSION_KEY w = Some session_key ->
  files w encrypted_content = Some body ->
  output_dir_exists w = true ->
  lib_decrypt [(0, user_secret, Some ghga_public)]
    (header_serialize (header_encrypt (make_packet_data_enc 0 session_key)
                                      [(0, ghga_secret, Some user_public)]) ++ body)
    (Some ghga_public)
  = (written, Some e) ->
  fst (download checksum w) = Raise (Crypt4GHError e)
  /\ stdout (snd (download checksum w)) = stdout w
  /\ stderr (snd (download checksum w)) = stderr w
  /\ files (snd (download checksum w)) decrypted_content = Some written
  /\ files (snd (download checksum w)) downloaded_file
     = Some (header_serialize (header_encrypt (make_packet_data_enc 0 session_key)
                                              [(0, ghga_secret, Some user_public)])
             ++ body).
Proof.
  intros Hsec Hpub Hgpub Husec Hskey Hbody Hdir Hdecr.
  rewrite (download_run sha256_hexdigest parse_private_key parse_public_key
             make_packet_data_enc header_encrypt header_serialize lib_decrypt path_str
             w checksum ghga_secret user_public ghga_public user_secret
             session_key body Hsec Hpub Hgpub Husec Hskey Hbody Hdir).
  rewrite Hdecr. cbn [fst snd]. repeat split.
Qed.

(** X14.  A download without the output of an upload: when the session key
    is set but [encrypted_content] does not exist, the download raises
    [FileNotFoundError] after the key store built the envelope, and writes
    no file. *)
Theorem download_without_encrypted_content
    w checksum ghga_secret user_public session_key :
  holds_key parse_private_key w (INPUT_DIR "ghga.sec") ghga_secret ->
  holds_key parse_public_key w (INPUT_DIR "researcher_2.pub") user_public ->
  SESSION_KEY w = Some session_key ->
  files w encrypted_content = None ->
  download checksum w = (Raise FileNotFoundError, w).
Proof.
  intros Hsec Hpub Hskey Hbody. unfold download, bind at 1.
  rewrite (encryption_key_store_download_run parse_private_key parse_public_key
             make_packet_data_enc header_encrypt header_serialize
             w ghga_secret user_public session_key Hsec Hpub Hskey).
  unfold bind at 1, open_rb at 1. now rewrite Hbody.
Qed.

(** X15.  The frame of a download.  Whatever its outcome, a download
    changes no file but [downloaded_file] and [decrypted_content], and
    leaves the session key and the output directory as they are; so the
    encrypted content, the keys and the session key are there for another
    download.  [downloaded_file] holds the envelope that the key store
    built in this call, followed by the encrypted content. *)
Theorem download_frame
    w checksum ghga_secret user_public ghga_public user_secret session_key body :
  holds_key parse_private_key w (INPUT_DIR "ghga.sec") ghga_secret ->
  holds_key parse_public_key w (INPUT_DIR "researcher_2.pub") user_public ->
  holds_key parse_public_key w (INPUT_DIR "ghga.pub") ghga_public ->
  holds_key parse_private_key w (INPUT_DIR "researcher_2.sec") user_secret ->
  SESSION_KEY w = Some session_key ->
  files w encrypted_content = Some body ->
  output_dir_exists w = true ->
  let envelope :=
    header_serialize (header_encrypt (make_packet_data_enc 0 session_key)
                                     [(0, ghga_secret, Some user_public)]) in
  let w1 := snd (download checksum w) in
  (forall q, path_eqb q downloaded_file = false ->
             path_eqb q decrypted_content = false -> files w1 q = files w q)
  /\ files w1 downloaded_file = Some (envelope ++ body)
  /\ SESSION_KEY w1 = Some session_key
  /\ output_dir_exists w1 = true.
Proof.
  intros Hsec Hpub Hgpub Husec Hskey Hbody Hdir envelope w1. subst w1.
  rewrite (download_run sha256_hexdigest parse_private_key parse_public_key
             make_packet_data_enc header_encrypt header_serialize lib_decrypt path_str
             w checksum ghga_secret user_public ghga_public user_secret
             session_key body Hsec Hpub Hgpub Husec Hskey Hbody Hdir).
  fold envelope.
  assert (Hq : forall q b1 b2 b3 b4,
             path_eqb q downloaded_file = false ->
             path_eqb q decrypted_content = false ->
             files (write_file decrypted_content b1
                      (write_file decrypted_content b2
                         (write_file downloaded_file b3
                            (write_file downloaded_file b4 w)))) q = files w q).
  { intros q b1 b2 b3 b4 H1 H2. cbn [files write_file]. now rewrite H2, H1. }
  destruct (snd (lib_decrypt _ _ _)); [|destruct (negb _)]; cbn [snd];
    (split; [intros q H1 H2; now apply Hq
            | split; [reflexivity | split; [exact Hskey | exact Hdir]]]).
Qed.

End MoreTransfers.

(** ** More concrete runs *)

Module MoreRuns.
Import Crypt4GH Crypt4GHFacts Demo DemoWorlds DemoRuns.

(** A world without the input file. *)
Lemma compute_checksums_missing_input_witness :
  fst (compute_checksums digest segment_size null_cipher input K1 0 empty_world)
  = Raise FileNotFoundError
  /\ forall q,
       files (snd (compute_checksums digest segment_size null_cipher input K1 0
                     empty_world)) q
       = files empty_world q.
Proof.
  apply (compute_checksums_missing_input digest segment_size null_cipher input K1 0
           empty_world).
  reflexivity.
Defined.

(** The offset -1 on a file of three bytes. *)
Lemma compute_checksums_negative_offset_witness :
  fst (compute_checksums digest segment_size null_cipher input K1 (-1)
         (world_with (b "abc") None))
  = Raise OSError
  /\ files (snd (compute_checksums digest segment_size null_cipher input K1 (-1)
                   (world_with (b "abc") None))) encrypted_content
     = Some [].
Proof.
  apply (compute_checksums_negative_offset digest segment_size null_cipher input K1 (-1)
           (world_with (b "abc") None) (b "abc")).
  - reflexivity.
  - lia.
Defined.

(** The output of an upload, given as the input. *)
Lemma compute_checksums_on_its_own_output_witness :
  fst (compute_checksums digest segment_size null_cipher encrypted_content K1 0
         (world_after_upload (b "1abc1def")))
  = Ok ([], digest [])
  /\ files (snd (compute_checksums digest segment_size null_cipher encrypted_content K1 0
                   (world_after_upload (b "1abc1def")))) encrypted_content
     = Some [].
Proof.
  apply (compute_checksums_on_its_own_output digest segment_size null_cipher K1 0
           (world_after_upload (b "1abc1def")) (b "1abc1def")).
  - reflexivity.
  - lia.
Defined.

(** Three segments of two bytes, of which the second is under another key. *)
Lemma compute_checksums_stops_at_failing_segment_witness :
  fst (compute_checksums digest 2 (decrypt_block segment_decrypt) input K1 0
         (world_with tampered_body None))
  = Raise (Crypt4GHError AuthenticationFailure)
  /\ files (snd (compute_checksums digest 2 (decrypt_block segment_decrypt) input K1 0
                   (world_with tampered_body None))) encrypted_content
     = Some (concat [b "1a"] ++ b "2b").
Proof.
  apply (compute_checksums_stops_at_failing_segment digest 2
           (decrypt_block segment_decrypt) input K1 0 (world_with tampered_body None)
           tampered_body [b "1a"] (b "2b") [b "1c"] [b "a"] AuthenticationFailure).
  - lia.
  - reflexivity.
  - reflexivity.
  - lia.
  - vm_compute. reflexivity.
  - repeat constructor.
  - reflexivity.
Defined.

(** A body of exactly one part. *)
Lemma compute_checksums_part_checksums_witness :
  fst (compute_checksums digest segment_size null_cipher input K1 0
         (world_with one_part None))
  = Ok (map digest [one_part] ++ [],
        digest (concat (segments segment_size (drop 0 one_part)))).
Proof.
  pose proof PART_SIZE_pos as Hpos.
  apply (compute_checksums_part_checksums digest segment_size null_cipher input K1 0
           (world_with one_part None) one_part [one_part] []).
  - exact segment_size_fits.
  - reflexivity.
  - reflexivity.
  - lia.
  - rewrite drop_0 by lia. cbn [concat]. now rewrite !app_nil_r.
  - constructor; [|constructor]. apply len_repeat. lia.
  - discriminate.
  - exact Hpos.
  - apply null_cipher_decrypts.
Defined.

(** Five bytes read two at a time. *)
Lemma segments_aligned_witness :
  concat (segments 2 (b "abcde")) = b "abcde"
  /\ Forall (fun s => len s = 2) (removelast (segments 2 (b "abcde")))
  /\ Forall (fun s => 0 < len s <= 2) (segments 2 (b "abcde")).
Proof. apply (segments_aligned 2 (b "abcde")). lia. Defined.

(** Two calls on a file of three bytes. *)
Lemma compute_checksums_twice_witness :
  let call := compute_checksums digest segment_size null_cipher input K1 0 in
  let w1 := snd (call (world_with (b "abc") None)) in
  fst (call w1) = fst (call (world_with (b "abc") None))
  /\ forall q, files (snd (call w1)) q = files w1 q.
Proof.
  apply (compute_checksums_twice digest segment_size null_cipher input K1 0
           (world_with (b "abc") None) (b "abc")).
  - reflexivity.
  - reflexivity.
  - lia.
Defined.

(** A world with the input file and no key file. *)
Lemma upload_fails_without_trace_witness :
  let w := world_without_keys (b "abc") in
  let upload deconstruct :=
    interrogation_room_upload digest segment_size null_cipher parse_key deconstruct
      repr input "expected" in
  (files w (INPUT_DIR "ghga.sec") = None ->
   upload deconstruct_fails w = (Raise FileNotFoundError, w))
  /\ (forall ghga_sec e,
        holds_key parse_key w (INPUT_DIR "ghga.sec") ghga_sec ->
        deconstruct_fails (fst (read PART_SIZE (b "abc"))) [(0, ghga_sec, None)] = inl e ->
        upload deconstruct_fails w = (Raise (Crypt4GHError e), w))
  /\ (forall ghga_sec el start,
        holds_key parse_key w (INPUT_DIR "ghga.sec") ghga_sec ->
        deconstruct_fails (fst (read PART_SIZE (b "abc"))) [(0, ghga_sec, None)]
        = inr ([], el, start) ->
        upload deconstruct_fails w = (Raise IndexError, w)).
Proof.
  apply (upload_fails_without_trace digest segment_size null_cipher parse_key
           deconstruct_fails repr (world_without_keys (b "abc")) input "expected"
           (b "abc")).
  reflexivity.
Defined.

(** A run on a body of three bytes. *)
Lemma run_on_short_body_witness :
  let run :=
    run digest segment_size null_cipher parse_key parse_key deconstruct_K1
      make_packet_data_enc (header_encrypt seal) header_serialize
      (lib_decrypt open_sealed segment_decrypt parse_payload segment_size) path_str repr in
  let w := world_with (b "abc") None in
  fst (run w) = Raise (UnboundLocalError "file_part")
  /\ stdout (snd (run w)) = stdout w
  /\ stderr (snd (run w)) = stderr w
  /\ SESSION_KEY (snd (run w)) = Some K1
  /\ files (snd (run w)) encrypted_content = Some (drop 0 (b "abc"))
  /\ files (snd (run w)) downloaded_file = files w downloaded_file.
Proof.
  apply (run_on_short_body digest segment_size null_cipher parse_key parse_key
           deconstruct_K1 make_packet_data_enc (header_encrypt seal) header_serialize
           (lib_decrypt open_sealed segment_decrypt parse_payload segment_size)
           path_str repr
           (world_with (b "abc") None) (b "abc") (b "G") K1 [] None 0
           (segments segment_size (drop 0 (b "abc")))).
  - reflexivity.
  - reflexivity.
  - apply holds_demo_key. reflexivity.
  - reflexivity.
  - lia.
  - vm_compute. discriminate.
  - vm_compute. reflexivity.
  - apply null_cipher_decrypts.
Defined.


(** A download of two segments, of which the second is under another key. *)
Lemma download_stops_at_decryption_failure_witness :
  let download :=
    download digest parse_key parse_key make_packet_data_enc (header_encrypt seal)
      header_serialize (lib_decrypt open_sealed segment_decrypt parse_payload 4)
      path_str "abcdef" in
  let w := world_after_upload (b "1abc2def") in
  fst (download w) = Raise (Crypt4GHError AuthenticationFailure)
  /\ stdout (snd (download w)) = stdout w
  /\ stderr (snd (download w)) = stderr w
  /\ files (snd (download w)) decrypted_content = Some (b "abc")
  /\ files (snd (download w)) downloaded_file
     = Some (header_serialize
               (header_encrypt seal (make_packet_data_enc 0 K1) [(0, b "G", Some (b "R"))])
             ++ b "1abc2def").
Proof.
  apply (download_stops_at_decryption_failure digest parse_key parse_key
           make_packet_data_enc (header_encrypt seal) header_serialize
           (lib_decrypt open_sealed segment_decrypt parse_payload 4) path_str
           (world_after_upload (b "1abc2def")) "abcdef" (b "G") (b "R") (b "G") (b "R")
           K1 (b "1abc2def") (b "abc") AuthenticationFailure).
  - exists (b "G"). split; reflexivity.
  - exists (b "R"). split; reflexivity.
  - exists (b "G"). split; reflexivity.
  - exists (b "R"). split; reflexivity.
  - reflexivity.
  - reflexivity.
  - reflexivity.
  - vm_compute. reflexivity.
Defined.

(** A download in a world where no upload has written its output. *)
Lemma download_without_encrypted_content_witness :
  download digest parse_key parse_key make_packet_data_enc (header_encrypt seal)
    header_serialize (lib_decrypt open_sealed segment_decrypt parse_payload 4)
    path_str "abcdef" world_without_upload
  = (Raise FileNotFoundError, world_without_upload).
Proof.
  apply (download_without_encrypted_content digest parse_key parse_key
           make_packet_data_enc (header_encrypt seal) header_serialize
           (lib_decrypt open_sealed segment_decrypt parse_payload 4) path_str
           world_without_upload "abcdef" (b "G") (b "R") K1).
  - apply holds_demo_key. reflexivity.
  - apply holds_demo_key. reflexivity.
  - reflexivity.
  - reflexivity.
Defined.

End MoreRuns.


(** ** The offset of the body *)

Section HeaderOffset.
Import Crypt4GH Crypt4GHFacts.

Variable sha256_hexdigest : bytes -> string.
Variable CIPHER_SEGMENT_SIZE : Z.
Variable parse_private_key : bytes -> option bytes.
Variable open_sealed : bytes -> bytes -> option bytes.
Variable parse_payload : bytes -> option record.
Variable segment_decrypt : bytes -> bytes -> option bytes.

#[local] Abbreviation decrypt_block := (decrypt_block segment_decrypt).
#[local] Abbreviation decode_header := (decode_header open_sealed parse_payload).
#[local] Abbreviation segments := (segments CIPHER_SEGMENT_SIZE).
#[local] Abbreviation compute_checksums :=
  (compute_checksums sha256_hexdigest CIPHER_SEGMENT_SIZE decrypt_block).
#[local] Abbreviation checksums_of_body :=
  (checksums_of_body sha256_hexdigest CIPHER_SEGMENT_SIZE decrypt_block).
#[local] Abbreviation encryption_key_store_upload :=
  (encryption_key_store_upload sha256_hexdigest parse_private_key decode_header).

(** C6.  For a file that is a serialized header followed by a body, the
    offset that the key store returns is the length of the header, that is
    the position right after its last packet, where the body starts.
    [compute_checksums], given this offset, works on the body alone: what
    it returns and writes is a function of the body, the header is not
    read again; and it consumes the body from its first byte to its last:
    when the segments of the body decrypt, [encrypted_content] holds
    exactly the body, the total checksum is that of the plaintexts of its
    segments, and a non-empty body shorter than a part ends in the
    [UnboundLocalError]. *)
Theorem header_offset_is_body_start
    w file_location content ghga_sec packets results body session_key keys :
  files w file_location = Some content ->
  path_eqb file_location encrypted_content = false ->
  holds_key parse_private_key w (INPUT_DIR "ghga.sec") ghga_sec ->
  content = header_serialize packets ++ body ->
  Forall2 (fun p r =>
             packet_outcome open_sealed parse_payload [(0, ghga_sec, None)] p = Some r)
          packets results ->
  Forall (fun p => len p < 2 ^ 32) packets ->
  len packets < 2 ^ 32 ->
  session_keys_of results = session_key :: keys ->
  len (header_serialize packets) <= PART_SIZE ->
  let offset := len (header_serialize packets) in
  let w1 := set_SESSION_KEY session_key w in
  encryption_key_store_upload (fst (read PART_SIZE content)) w
  = (Ok (session_key, sha256_hexdigest session_key, offset), w1)
  /\ drop offset content = body
  /\ compute_checksums file_location session_key offset w1
     = (snd (checksums_of_body session_key body),
        write_file encrypted_content (fst (checksums_of_body session_key body))
          (write_file encrypted_content [] (ensure_output_dir w1)))
  /\ (forall plaintexts,
        0 < CIPHER_SEGMENT_SIZE ->
        decrypts_to decrypt_block session_key (segments body) plaintexts ->
        files (snd (compute_checksums file_location session_key offset w1))
              encrypted_content
        = Some body
        /\ (body = [] \/ PART_SIZE <= len body ->
            exists part_checksums,
              fst (compute_checksums file_location session_key offset w1)
              = Ok (part_checksums, sha256_hexdigest (concat plaintexts)))
        /\ (body <> [] -> len body < PART_SIZE ->
            fst (compute_checksums file_location session_key offset w1)
            = Raise (UnboundLocalError "file_part"))).
Proof.
  intros Hfile Hpath Hkey -> Hout Hsmall Hcount Hkeys Hfit offset w1.
  assert (Hdrop : drop offset (header_serialize packets ++ body) = body)
    by apply drop_app_exact.
  assert (Hrun :
    compute_checksums file_location session_key offset w1
    = (snd (checksums_of_body session_key body),
       write_file encrypted_content (fst (checksums_of_body session_key body))
         (write_file encrypted_content [] (ensure_output_dir w1)))).
  { rewrite (compute_checksums_run sha256_hexdigest CIPHER_SEGMENT_SIZE decrypt_block
               file_location session_key offset w1 _ Hfile (len_nonneg _)).
    now rewrite Hpath, Hdrop. }
  split; [|split; [exact Hdrop | split; [exact Hrun|]]].
  - rewrite read_positive by apply PART_SIZE_pos. cbn [fst].
    rewrite take_app_le by exact Hfit.
    apply encryption_key_store_upload_run
      with (ghga_sec := ghga_sec) (keys := keys) (el := edit_list_of results);
      [exact Hkey|].
    rewrite (decode_header_serialized open_sealed parse_payload _ packets results _
               Hout Hsmall Hcount (session_key_opened _ _ _ Hkeys)).
    now rewrite Hkeys.
  - intros plaintexts Hseg Hps. rewrite Hrun. cbn [fst snd].
    destruct (process_decrypts sha256_hexdigest decrypt_block session_key _ _ locals0 Hps)
      as [Hok _].
    split; [|split].
    + rewrite files_write_same.
      now rewrite (checksums_of_body_written sha256_hexdigest CIPHER_SEGMENT_SIZE
                     decrypt_block session_key body Hseg Hok).
    + intros Hsize.
      destruct (checksums_of_body_returns sha256_hexdigest CIPHER_SEGMENT_SIZE
                  decrypt_block session_key body plaintexts Hseg Hps Hsize)
        as [pcs Hret].
      exists pcs. now rewrite Hret.
    + intros Hne Hshort.
      now rewrite (checksums_of_short_body sha256_hexdigest CIPHER_SEGMENT_SIZE
                     decrypt_block session_key body plaintexts Hseg Hne Hshort Hps).
Qed.

End HeaderOffset.

Module HeaderOffsetRun.
Import Crypt4GH Crypt4GHFacts Demo DemoWorlds DemoRuns.

(** The header of two session keys in front of a segment under the first:
    the offset is the length of the header, and the call at this offset
    writes the segment, and nothing of the header, to the output file. *)
Lemma header_offset_is_body_start_witness :
  let w := world_with readable_file None in
  let w1 := set_SESSION_KEY K1 w in
  let offset := len two_key_header in
  let call :=
    compute_checksums digest segment_size (decrypt_block segment_decrypt)
      input K1 offset w1 in
  encryption_key_store_upload digest parse_key (decode_header open_sealed parse_payload)
    (fst (read PART_SIZE readable_file)) w
  = (Ok (K1, digest K1, offset), w1)
  /\ drop offset readable_file = b "1plaintext"
  /\ files (snd call) encrypted_content = Some (b "1plaintext")
  /\ fst call = Raise (UnboundLocalError "file_part").
Proof.
  destruct (header_offset_is_body_start digest segment_size parse_key open_sealed
              parse_payload segment_decrypt (world_with readable_file None) input
              readable_file (b "G")
              [seal (make_packet_data_enc 0 K1) (b "S") (b "G");
               seal (make_packet_data_enc 0 K2) (b "S") (b "G")]
              [Opened (SessionKeyRecord K1); Opened (SessionKeyRecord K2)]
              (b "1plaintext") K1 [K2])
    as (Hstore & Hdrop & _ & Hbody).
  - reflexivity.
  - reflexivity.
  - apply holds_demo_key. reflexivity.
  - reflexivity.
  - repeat constructor.
  - repeat constructor.
  - reflexivity.
  - reflexivity.
  - vm_compute. discriminate.
  - destruct (Hbody [b "plaintext"]) as (Hwritten & _ & Hshort).
    + reflexivity.
    + repeat constructor.
    + split; [exact Hstore|]. split; [exact Hdrop|]. split; [exact Hwritten|].
      apply Hshort; [discriminate | vm_compute; reflexivity].
Defined.

End HeaderOffsetRun.

(** ** Reports of a checksum that does not match *)

Section MismatchReports.

Variable sha256_hexdigest : bytes -> string.
Variable CIPHER_SEGMENT_SIZE : Z.
Variable decrypt_block : bytes -> list bytes -> crypt4gh_error + bytes.
Variable parse_private_key : bytes -> option bytes.
Variable parse_public_key : bytes -> option bytes.
Variable deconstruct :
  bytes -> list key_tuple -> crypt4gh_error + (list bytes * option EditList * Z).
Variable make_packet_data_enc : Z -> bytes -> bytes.
Variable header_encrypt : bytes -> list key_tuple -> list bytes.
Variable header_serialize : list bytes -> bytes.
Variable lib_decrypt :
  list key_tuple -> bytes -> option bytes -> bytes * option crypt4gh_error.
Variable path_str : path -> string.
Variable repr : list string -> string.

#[local] Abbreviation compute_checksums :=
  (compute_checksums sha256_hexdigest CIPHER_SEGMENT_SIZE decrypt_block).
#[local] Abbreviation checksums_of_body :=
  (checksums_of_body sha256_hexdigest CIPHER_SEGMENT_SIZE decrypt_block).
#[local] Abbreviation interrogation_room_upload :=
  (interrogation_room_upload sha256_hexdigest CIPHER_SEGMENT_SIZE decrypt_block
     parse_private_key deconstruct repr).
#[local] Abbreviation download :=
  (download sha256_hexdigest parse_private_key parse_public_key
     make_packet_data_enc header_encrypt header_serialize lib_decrypt path_str).
#[local] Abbreviation segments := (segments CIPHER_SEGMENT_SIZE).
#[local] Abbreviation decrypts_to := (decrypts_to decrypt_block).

(** C7, where the code breaks it.  For a file whose body is not empty and
    shorter than [PART_SIZE], an upload against a checksum that does not
    match reports nothing: [compute_checksums] raises the
    [UnboundLocalError] on [file_part] before the upload reaches the
    comparison, so the upload raises and neither stream gets a line. *)
Theorem checksum_mismatch_on_short_body_is_not_reported
    w file_location checksum content ghga_sec session_key keys el offset plaintexts :
  0 < CIPHER_SEGMENT_SIZE ->
  files w file_location = Some content ->
  path_eqb file_location encrypted_content = false ->
  holds_key parse_private_key w (INPUT_DIR "ghga.sec") ghga_sec ->
  deconstruct (fst (read PART_SIZE content)) [(0, ghga_sec, None)]
  = inr (session_key :: keys, el, offset) ->
  0 <= offset ->
  drop offset content <> [] ->
  len (drop offset content) < PART_SIZE ->
  decrypts_to session_key (segments (drop offset content)) plaintexts ->
  sha256_hexdigest (concat plaintexts) <> checksum ->
  fst (interrogation_room_upload file_location checksum w)
  = Raise (UnboundLocalError "file_part")
  /\ stdout (snd (interrogation_room_upload file_location checksum w)) = stdout w
  /\ stderr (snd (interrogation_room_upload file_location checksum w)) = stderr w.
Proof.
  intros Hseg Hfile Hpath Hkey Hdec Hoff Hne Hshort Hps _.
  rewrite (interrogation_room_upload_run _ _ _ _ _ _ _ _ _ _ _ _ _ _ _ Hfile Hkey Hdec).
  rewrite (compute_checksums_run sha256_hexdigest CIPHER_SEGMENT_SIZE decrypt_block
             file_location session_key offset (set_SESSION_KEY session_key w)
             content Hfile Hoff).
  rewrite Hpath.
  rewrite (checksums_of_short_body sha256_hexdigest CIPHER_SEGMENT_SIZE decrypt_block
             session_key _ plaintexts Hseg Hne Hshort Hps).
  cbn [fst snd]. split; [reflexivity|].
  unfold ensure_output_dir.
  destruct (output_dir_exists (set_SESSION_KEY session_key w)); split; reflexivity.
Qed.

(** X16.  Where the upload completes (every segment decrypts, the body is
    empty or holds a part) and where crypt4gh decrypts the container of
    the download, a checksum that does not match is reported and nothing
    is raised.  The upload prints, after [compute_checksums] returned its
    part checksums and the SHA-256 of the plaintexts, the line of the
    mismatch with the expected and that actual checksum, and then the
    summary with these part checksums; the download prints the mismatch,
    with the SHA-256 of the whole decrypted file, to stderr.  Both return
    normally, and neither prints a validation. *)
Theorem checksum_mismatch_is_reported
    w file_location checksum content ghga_sec session_key keys el offset plaintexts
    w_d ghga_secret user_public ghga_public user_secret download_key body written :
  0 < CIPHER_SEGMENT_SIZE ->
  files w file_location = Some content ->
  path_eqb file_location encrypted_content = false ->
  holds_key parse_private_key w (INPUT_DIR "ghga.sec") ghga_sec ->
  deconstruct (fst (read PART_SIZE content)) [(0, ghga_sec, None)]
  = inr (session_key :: keys, el, offset) ->
  0 <= offset ->
  decrypts_to session_key (segments (drop offset content)) plaintexts ->
  drop offset content = [] \/ PART_SIZE <= len (drop offset content) ->
  sha256_hexdigest (concat plaintexts) <> checksum ->
  holds_key parse_private_key w_d (INPUT_DIR "ghga.sec") ghga_secret ->
  holds_key parse_public_key w_d (INPUT_DIR "researcher_2.pub") user_public ->
  holds_key parse_public_key w_d (INPUT_DIR "ghga.pub") ghga_public ->
  holds_key parse_private_key w_d (INPUT_DIR "researcher_2.sec") user_secret ->
  SESSION_KEY w_d = Some download_key ->
  files w_d encrypted_content = Some body ->
  output_dir_exists w_d = true ->
  lib_decrypt [(0, user_secret, Some ghga_public)]
    (header_serialize (header_encrypt (make_packet_data_enc 0 download_key)
                                      [(0, ghga_secret, Some user_public)]) ++ body)
    (Some ghga_public)
  = (written, None) ->
  sha256_hexdigest written <> checksum ->
  (exists part_checksums,
      fst (compute_checksums file_location session_key offset
             (set_SESSION_KEY session_key w))
      = Ok (part_checksums, sha256_hexdigest (concat plaintexts))
      /\ fst (interrogation_room_upload file_location checksum w) = Ok tt
      /\ stdout (snd (interrogation_room_upload file_location checksum w))
         = stdout w
             ++ [("Upload: Checksum mismatch!" ++ nl
                    ++ "Expected: '" ++ checksum ++ "'" ++ nl
                    ++ "Actual: '" ++ sha256_hexdigest (concat plaintexts) ++ "'")%string;
                 ("Part checksums: " ++ repr part_checksums ++ nl
                    ++ "Encryption secret id: " ++ sha256_hexdigest session_key)%string]
      /\ stderr (snd (interrogation_room_upload file_location checksum w)) = stderr w
      /\ files (snd (interrogation_room_upload file_location checksum w)) encrypted_content
         = Some (drop offset content))
  /\ (fst (download checksum w_d) = Ok tt
      /\ stderr (snd (download checksum w_d))
         = stderr w_d
             ++ [("Download: Checksum mismatch for '" ++ path_str decrypted_content ++ "'"
                    ++ nl ++ "Expected: " ++ checksum
                    ++ nl ++ "Actual: " ++ sha256_hexdigest written)%string]
      /\ stdout (snd (download checksum w_d)) = stdout w_d
      /\ files (snd (download checksum w_d)) decrypted_content = Some written).
Proof.
  intros Hseg Hfile Hpath Hkey Hdec Hoff Hps Hsize Hup
         Hsec Hpub Hgpub Husec Hskey Hbody Hdir Hdecr Hdown.
  split.
  - destruct (checksums_of_body_returns sha256_hexdigest CIPHER_SEGMENT_SIZE decrypt_block
                session_key _ plaintexts Hseg Hps Hsize) as [pcs Hret].
    exists pcs.
    rewrite (interrogation_room_upload_run _ _ _ _ _ _ _ _ _ _ _ _ _ _ _ Hfile Hkey Hdec).
    rewrite (compute_checksums_run sha256_hexdigest CIPHER_SEGMENT_SIZE decrypt_block
               file_location session_key offset (set_SESSION_KEY session_key w)
               content Hfile Hoff).
    rewrite Hpath, Hret. cbn [fst snd].
    unfold upload_verdict. apply String.eqb_neq in Hup. rewrite Hup.
    cbn [fst snd stdout stderr files print write_file set_SESSION_KEY].
    split; [reflexivity|]. split; [reflexivity|].
    unfold ensure_output_dir, upload_mismatch, upload_summary.
    destruct (output_dir_exists (set_SESSION_KEY session_key w));
      cbn [stdout stderr mkdir_output set_SESSION_KEY];
      rewrite <- app_assoc; repeat split.
  - rewrite (download_run sha256_hexdigest parse_private_key parse_public_key
               make_packet_data_enc header_encrypt header_serialize lib_decrypt path_str
               w_d checksum ghga_secret user_public ghga_public user_secret
               download_key body Hsec Hpub Hgpub Husec Hskey Hbody Hdir).
    rewrite Hdecr. cbn [fst snd].
    assert (Hneq : String.eqb checksum (sha256_hexdigest written) = false).
    { apply String.eqb_neq. congruence. }
    rewrite Hneq. cbn [negb]. repeat split.
Qed.

End MismatchReports.

Module MismatchRuns.
Import Crypt4GH Crypt4GHFacts Demo DemoWorlds DemoRuns.

Lemma digest_one_part_differs :
  digest (concat (segments segment_size (drop 0 one_part))) <> "expected"%string.
Proof.
  rewrite concat_segments by reflexivity. rewrite drop_0 by lia.
  unfold one_part. pose proof PART_SIZE_pos as Hpos.
  destruct (Z.to_nat PART_SIZE) as [|n] eqn:Hn; [lia|].
  cbn. discriminate.
Qed.

(** An upload of three bytes against a checksum that is not theirs. *)
Lemma checksum_mismatch_on_short_body_is_not_reported_witness :
  let upload :=
    interrogation_room_upload digest segment_size null_cipher parse_key deconstruct_K1
      repr input "expected" in
  let w := world_with (b "abc") None in
  digest (b "abc") <> "expected"%string
  /\ fst (upload w) = Raise (UnboundLocalError "file_part")
  /\ stdout (snd (upload w)) = stdout w
  /\ stderr (snd (upload w)) = stderr w.
Proof.
  split; [vm_compute; discriminate|].
  apply (checksum_mismatch_on_short_body_is_not_reported digest segment_size null_cipher
           parse_key deconstruct_K1 repr (world_with (b "abc") None) input "expected"
           (b "abc") (b "G") K1 [] None 0 (segments segment_size (drop 0 (b "abc")))).
  - reflexivity.
  - reflexivity.
  - reflexivity.
  - apply holds_demo_key. reflexivity.
  - reflexivity.
  - lia.
  - vm_compute. discriminate.
  - vm_compute. reflexivity.
  - apply null_cipher_decrypts.
  - vm_compute. discriminate.
Defined.

(** An upload of a body of one part and a download of two segments, both
    against a checksum that is not theirs. *)
Lemma checksum_mismatch_is_reported_witness :
  let upload :=
    interrogation_room_upload digest segment_size null_cipher parse_key deconstruct_K1
      repr input "expected" in
  let download :=
    download digest parse_key parse_key make_packet_data_enc (header_encrypt seal)
      header_serialize (lib_decrypt open_sealed segment_decrypt parse_payload 4)
      path_str "expected" in
  let w := world_with one_part None in
  let w_d := world_after_upload (b "1abc1def") in
  let actual := digest (concat (segments segment_size (drop 0 one_part))) in
  (exists part_checksums,
      fst (compute_checksums digest segment_size null_cipher input K1 0
             (set_SESSION_KEY K1 w))
      = Ok (part_checksums, actual)
      /\ fst (upload w) = Ok tt
      /\ stdout (snd (upload w))
         = stdout w
             ++ [("Upload: Checksum mismatch!" ++ nl
                    ++ "Expected: '" ++ "expected" ++ "'" ++ nl
                    ++ "Actual: '" ++ actual ++ "'")%string;
                 ("Part checksums: " ++ repr part_checksums ++ nl
                    ++ "Encryption secret id: " ++ digest K1)%string]
      /\ stderr (snd (upload w)) = stderr w
      /\ files (snd (upload w)) encrypted_content = Some (drop 0 one_part))
  /\ (fst (download w_d) = Ok tt
      /\ stderr (snd (download w_d))
         = stderr w_d
             ++ [("Download: Checksum mismatch for '" ++ path_str decrypted_content ++ "'"
                    ++ nl ++ "Expected: " ++ "expected"
                    ++ nl ++ "Actual: " ++ digest (b "abcdef"))%string]
      /\ stdout (snd (download w_d)) = stdout w_d
      /\ files (snd (download w_d)) decrypted_content = Some (b "abcdef")).
Proof.
  apply (checksum_mismatch_is_reported digest segment_size null_cipher parse_key parse_key
           deconstruct_K1 make_packet_data_enc (header_encrypt seal) header_serialize
           (lib_decrypt open_sealed segment_decrypt parse_payload 4) path_str repr
           (world_with one_part None) input "expected" one_part (b "G") K1 [] None 0
           (segments segment_size (drop 0 one_part))
           (world_after_upload (b "1abc1def")) (b "G") (b "R") (b "G") (b "R") K1
           (b "1abc1def") (b "abcdef")).
  - reflexivity.
  - reflexivity.
  - reflexivity.
  - apply holds_demo_key. reflexivity.
  - reflexivity.
  - lia.
  - apply null_cipher_decrypts.
  - right. rewrite drop_0 by lia. unfold one_part.
    pose proof PART_SIZE_pos. rewrite len_repeat; lia.
  - exact digest_one_part_differs.
  - exists (b "G"). split; reflexivity.
  - exists (b "R"). split; reflexivity.
  - exists (b "G"). split; reflexivity.
  - exists (b "R"). split; reflexivity.
  - reflexivity.
  - reflexivity.
  - reflexivity.
  - vm_compute. reflexivity.
  - vm_compute. discriminate.
Defined.

(** A download of two segments. *)
Lemma download_frame_witness :
  let download :=
    download digest parse_key parse_key make_packet_data_enc (header_encrypt seal)
      header_serialize (lib_decrypt open_sealed segment_decrypt parse_payload 4)
      path_str "abcdef" in
  let w := world_after_upload (b "1abc1def") in
  let envelope :=
    header_serialize
      (header_encrypt seal (make_packet_data_enc 0 K1) [(0, b "G", Some (b "R"))]) in
  (forall q, path_eqb q downloaded_file = false ->
             path_eqb q decrypted_content = false ->
             files (snd (download w)) q = files w q)
  /\ files (snd (download w)) downloaded_file = Some (envelope ++ b "1abc1def")
  /\ SESSION_KEY (snd (download w)) = Some K1
  /\ output_dir_exists (snd (download w)) = true.
Proof.
  apply (download_frame digest parse_key parse_key
           make_packet_data_enc (header_encrypt seal) header_serialize
           (lib_decrypt open_sealed segment_decrypt parse_payload 4) path_str
           (world_after_upload (b "1abc1def")) "abcdef"
           (b "G") (b "R") (b "G") (b "R") K1 (b "1abc1def")).
  - exists (b "G"). split; reflexivity.
  - exists (b "R"). split; reflexivity.
  - exists (b "G"). split; reflexivity.
  - exists (b "R"). split; reflexivity.
  - reflexivity.
  - reflexivity.
  - reflexivity.
Defined.

End MismatchRuns.
